(** * watchwatch/server.js: the room synchronisation server

    A shallow embedding of the socket.io event handlers of
    [src/watchwatch/server.js] (room bookkeeping, the shared video state with
    its 300ms debounce, chat and WebRTC signalling relay), followed by the
    properties of the handlers.

    The three module-level [Map]s of the server are finite maps, the inner
    per-room [Map] from socket id to user keeps its insertion order (the
    server turns it into an array with [Array.from(users.values())]), and
    every handler is a function from the state before the event to the state
    after it together with the list of messages it emitted. *)

From Stdlib Require Import ZArith QArith Qcanon.
From stdpp Require Import gmap strings list fin_maps.

#[local] Set Warnings "-register-all".
Local Open Scope string_scope.

(** ** JavaScript values *)

(** Event payloads are whatever the client sent.  Numbers are rationals
    (a payload travels as JSON, which has neither NaN nor infinities).
    Objects and arrays carry the identity [ref] of the JavaScript object,
    because a [Map] compares object keys by identity and not by content. *)
Inductive jsval :=
| JUndefined
| JNull
| JBool (b : bool)
| JNum (q : Qc)
| JStr (s : string)
| JObj (ref : nat) (props : list (string * jsval))
| JArr (ref : nat) (items : list jsval).

(** [!v] is [negb (truthy v)]. *)
Definition truthy (v : jsval) : bool :=
  match v with
  | JUndefined | JNull => false
  | JBool b => b
  | JNum q => negb (Qnum (this q) =? 0)%Z
  | JStr s => negb (String.eqb s "")
  | JObj _ _ | JArr _ _ => true
  end.

(** [a || b] *)
Definition js_or (a b : jsval) : jsval := if truthy a then a else b.

(** The number of a [Date.now()] reading or of an array length. *)
Definition JInt (z : Z) : jsval := JNum (Q2Qc (inject_Z z)).

(** ** Insertion-ordered string-keyed tables

    Both the own properties of an object and a [Map] keyed by socket ids:
    writing an existing key keeps its place, a new key goes last. *)
Section Table.
Context {A : Type}.

Fixpoint tbl_get (k : string) (t : list (string * A)) : option A :=
  match t with
  | [] => None
  | (k', v) :: t' => if String.eqb k k' then Some v else tbl_get k t'
  end.

Fixpoint tbl_set (k : string) (x : A) (t : list (string * A)) : list (string * A) :=
  match t with
  | [] => [(k, x)]
  | (k', v) :: t' =>
      if String.eqb k k' then (k, x) :: t' else (k', v) :: tbl_set k x t'
  end.

Fixpoint tbl_delete (k : string) (t : list (string * A)) : list (string * A) :=
  match t with
  | [] => []
  | (k', v) :: t' =>
      if String.eqb k k' then tbl_delete k t' else (k', v) :: tbl_delete k t'
  end.

Definition tbl_values (t : list (string * A)) : list A := map snd t.
End Table.

(** [v.k], also the [k] bound by [const { k } = v].  None of the property
    names the server reads exists on a primitive or on an array. *)
Definition get_prop (v : jsval) (k : string) : jsval :=
  match v with
  | JObj _ ps => default JUndefined (tbl_get k ps)
  | _ => JUndefined
  end.

(** [v.k = x]; on a primitive the assignment is dropped (the file is not in
    strict mode).  On an array it would add a named property, which nothing
    reads and which is not part of the array's elements. *)
Definition set_prop (v : jsval) (k : string) (x : jsval) : jsval :=
  match v with
  | JObj r ps => JObj r (tbl_set k x ps)
  | _ => v
  end.

(** Destructuring [undefined] or [null] raises a TypeError. *)
Definition destructurable (v : jsval) : bool :=
  match v with
  | JUndefined | JNull => false
  | _ => true
  end.

(** The own enumerable properties copied by [{...v}].  The server spreads a
    payload only after it has read a truthy property from it, so only the
    object case is ever used. *)
Definition spread (v : jsval) : list (string * jsval) :=
  match v with
  | JObj _ ps => ps
  | _ => []
  end.

(** Whether [`${v}`] yields a string.  The conversion of an object calls
    its [toString]: an object that has a property of that name (a payload
    holds no functions, so the property is not callable) has no string
    conversion and the template literal raises a TypeError; any other
    object prints through [Object.prototype.toString].  An array joins the
    conversions of its elements. *)
Fixpoint stringifiable (v : jsval) : bool :=
  match v with
  | JObj _ ps =>
      match tbl_get "toString" ps with
      | Some _ => false
      | None => true
      end
  | JArr _ items => forallb stringifiable items
  | _ => true
  end.

(** An object literal built by the server; its identity is never observed. *)
Definition obj (ps : list (string * jsval)) : jsval := JObj 0 ps.
Definition arr (xs : list jsval) : jsval := JArr 0 xs.

(** ** Map keys *)

(** What a [Map] (and socket.io's room table) sees of a key: primitives by
    value, objects by identity. *)
Inductive mapkey :=
| KUndefined
| KNull
| KBool (b : bool)
| KNum (q : Qc)
| KStr (s : string)
| KRef (r : nat).

Definition key_of (v : jsval) : mapkey :=
  match v with
  | JUndefined => KUndefined
  | JNull => KNull
  | JBool b => KBool b
  | JNum q => KNum q
  | JStr s => KStr s
  | JObj r _ | JArr r _ => KRef r
  end.

#[global] Instance mapkey_eq_dec : EqDecision mapkey.
Proof. solve_decision. Defined.

#[global] Instance mapkey_countable : Countable mapkey.
Proof.
  refine (inj_countable'
    (fun k => match k with
              | KUndefined => inl (inl true)
              | KNull => inl (inl false)
              | KBool b => inl (inr b)
              | KNum q => inr (inl q)
              | KStr s => inr (inr (inl s))
              | KRef r => inr (inr (inr r))
              end)
    (fun x => match x with
              | inl (inl true) => KUndefined
              | inl (inl false) => KNull
              | inl (inr b) => KBool b
              | inr (inl q) => KNum q
              | inr (inr (inl s)) => KStr s
              | inr (inr (inr r)) => KRef r
              end) _).
  by intros [].
Defined.

(** ** Server state *)

(** An entry of [rooms]. Its [users] map is created empty and never used. *)
Record Room := mkRoom {
  id : jsval;
  createdAt : Z;
  users : list (string * jsval)
}.

(** An entry of [roomVideoStates].  [lastUpdated] is [null] or a
    [Date.now()] reading, [isPlaying] is only ever assigned a boolean. *)
Record VideoState := mkVideoState {
  type : jsval;
  videoId : jsval;
  videoUrl : jsval;
  currentTime : jsval;
  isPlaying : bool;
  lastUpdated : option Z;
  lastUpdatedBy : jsval
}.

(** A connected socket: [socket.data.roomId], [socket.data.user] and the
    socket.io rooms it is in. *)
Record Socket := mkSocket {
  data_roomId : jsval;
  data_user : jsval;
  sio_rooms : gset mapkey
}.

Record State := mkState {
  rooms : gmap mapkey Room;
  roomVideoStates : gmap mapkey VideoState;
  roomUsers : gmap mapkey (list (string * jsval));
  sockets : gmap string Socket
}.

Definition initial : State := mkState ∅ ∅ ∅ ∅.

Definition set_rooms (f : gmap mapkey Room → gmap mapkey Room) (s : State) : State :=
  mkState (f (rooms s)) (roomVideoStates s) (roomUsers s) (sockets s).
Definition set_roomVideoStates
    (f : gmap mapkey VideoState → gmap mapkey VideoState) (s : State) : State :=
  mkState (rooms s) (f (roomVideoStates s)) (roomUsers s) (sockets s).
Definition set_roomUsers
    (f : gmap mapkey (list (string * jsval)) → gmap mapkey (list (string * jsval)))
    (s : State) : State :=
  mkState (rooms s) (roomVideoStates s) (f (roomUsers s)) (sockets s).
Definition set_sockets (f : gmap string Socket → gmap string Socket) (s : State) : State :=
  mkState (rooms s) (roomVideoStates s) (roomUsers s) (f (sockets s)).

(** The readings of the system clock during one handler run: the
    [new Date()] of [initializeRoom], then the first and the second
    [Date.now()] of the handler. *)
Record Clock := mkClock {
  date_new : Z;
  date_now1 : Z;
  date_now2 : Z
}.

(** ** Emitted messages *)

(** A message leaves the server addressed to the sockets socket.io resolved
    when [emit] was called. *)
Record Emit := mkEmit {
  recipients : gset string;
  event : string;
  payload : jsval
}.

(** The sockets that are in socket.io room [k]. *)
Definition members (s : State) (k : mapkey) : gset string :=
  dom (filter (λ p, k ∈ sio_rooms p.2) (sockets s)).

(** The room names socket.io reads off the argument of [join] and [to]: the
    elements of an array, else the value itself. *)
Definition sio_names (room : jsval) : list mapkey :=
  match room with
  | JArr _ items => map key_of items
  | _ => [key_of room]
  end.

(** The sockets a broadcast to the rooms [ks] addresses: those in one of the
    rooms, and every connected socket when no room is named. *)
Definition in_rooms (s : State) (ks : list mapkey) : gset string :=
  match ks with
  | [] => dom (sockets s)
  | _ => ⋃ (members s <$> ks)
  end.

(** [io.to(room)] addresses the sockets in the room.  [socket.to(room)]
    leaves out the sockets that are in the room named by the id of the
    socket: the socket itself as long as it is in that room, and any other
    socket that has joined it.  [socket.emit] addresses the socket
    itself. *)
Definition io_to (s : State) (room : jsval) : gset string :=
  in_rooms s (sio_names room).
Definition socket_to (s : State) (sid : string) (room : jsval) : gset string :=
  io_to s room ∖ members s (KStr sid).
Definition socket_emit (sid : string) : gset string := {[sid]}.

Definition error (sid message : string) : Emit :=
  mkEmit (socket_emit sid) "error" (obj [("message", JStr message)]).

(** A handler returns, or raises; either way it leaves a state behind and
    has emitted messages by then. *)
Inductive outcome :=
| Done (s : State) (out : list Emit)
| Throw (s : State) (out : list Emit).

(** [console.log] of a template literal that interpolates the values [vs],
    as the last statement of a handler that has reached state [s] and
    emitted [out]: a value without a string conversion makes it raise. *)
Definition log_then_return (vs : list jsval) (s : State) (out : list Emit) : outcome :=
  if forallb stringifiable vs then Done s out else Throw s out.

(** The video state as it is serialised into [room-joined]. *)
Definition js_of_lastUpdated (t : option Z) : jsval :=
  match t with
  | None => JNull
  | Some z => JInt z
  end.

Definition js_of_VideoState (v : VideoState) : jsval :=
  obj [("type", type v); ("videoId", videoId v); ("videoUrl", videoUrl v);
       ("currentTime", currentTime v); ("isPlaying", JBool (isPlaying v));
       ("lastUpdated", js_of_lastUpdated (lastUpdated v));
       ("lastUpdatedBy", lastUpdatedBy v)].

(** ** The handlers *)

Definition has {V} (m : gmap mapkey V) (k : mapkey) : bool :=
  bool_decide (is_Some (m !! k)).

Definition initializeRoom (clk : Clock) (roomId : jsval) (s : State) : State :=
  let k := key_of roomId in
  let s1 :=
    if has (rooms s) k then s
    else set_rooms (insert k (mkRoom roomId (date_new clk) [])) s in
  let s2 :=
    if has (roomVideoStates s1) k then s1
    else set_roomVideoStates
           (insert k (mkVideoState JNull JNull JNull (JInt 0) false None JNull)) s1 in
  if has (roomUsers s2) k then s2
  else set_roomUsers (insert k []) s2.

(** [socket.join(room)] puts the socket into every room the argument
    names; [socket.leave(room)] takes it out of the one room [room]. *)
Definition socket_join (sid : string) (room : jsval) (s : State) : State :=
  set_sockets (alter (λ sk, mkSocket (data_roomId sk) (data_user sk)
                              (list_to_set (sio_names room) ∪ sio_rooms sk)) sid) s.
Definition socket_leave (sid : string) (room : jsval) (s : State) : State :=
  set_sockets (alter (λ sk, mkSocket (data_roomId sk) (data_user sk)
                              (sio_rooms sk ∖ {[key_of room]})) sid) s.

(** [socket.data.roomId = roomId; socket.data.user = user]. *)
Definition socket_record (sid : string) (roomId user : jsval) (s : State) : State :=
  set_sockets (alter (λ sk, mkSocket roomId user (sio_rooms sk)) sid) s.

(** The cleanup shared by [leave-room] and [disconnect]. *)
Definition cleanup (k : mapkey) (s : State) : State :=
  set_roomUsers (delete k) (set_roomVideoStates (delete k) (set_rooms (delete k) s)).

Definition on_join_room (clk : Clock) (sid : string) (data : jsval) (s : State) : outcome :=
  if negb (destructurable data) then Throw s [] else
  let user := get_prop data "user" in
  let roomId := get_prop data "roomId" in
  if negb (truthy user) || negb (truthy roomId) then
    Done s [error sid "Invalid join data"]
  else
    let k := key_of roomId in
    let s1 := initializeRoom clk roomId s in
    let user := set_prop user "socketId" (JStr sid) in
    match roomUsers s1 !! k with
    | None => Throw s1 []
    | Some us =>
        let us' := tbl_set sid user us in
        let s2 := set_roomUsers (insert k us') s1 in
        let s3 := socket_record sid roomId user (socket_join sid roomId s2) in
        let currentVideoState :=
          match roomVideoStates s3 !! k with
          | Some v => js_of_VideoState v
          | None => JUndefined
          end in
        let usersInRoom := tbl_values us' in
        let userCount := JInt (Z.of_nat (length usersInRoom)) in
        (* `User ${user.name} joined room ${roomId}` *)
        log_then_return [get_prop user "name"; roomId] s3
          [ mkEmit (socket_emit sid) "room-joined"
              (obj [("roomId", roomId); ("userCount", userCount);
                    ("currentVideoState", currentVideoState);
                    ("users", arr usersInRoom)]);
            mkEmit (socket_to s3 sid roomId) "user-joined"
              (obj [("user", user); ("userCount", userCount);
                    ("users", arr usersInRoom)]) ]
    end.

Definition on_video_load (clk : Clock) (sid : string) (data : jsval) (s : State) : outcome :=
  if negb (destructurable data) then Throw s [] else
  let roomId := get_prop data "roomId" in
  let type := get_prop data "type" in
  let videoId := get_prop data "videoId" in
  let videoUrl := get_prop data "videoUrl" in
  let userId := get_prop data "userId" in
  if negb (truthy roomId) || negb (truthy userId) || negb (truthy type) then
    Done s [error sid "Invalid video load data"]
  else
    let k := key_of roomId in
    let s1 := initializeRoom clk roomId s in
    match roomVideoStates s1 !! k with
    | None => Throw s1 []
    | Some _ =>
        let currentState :=
          mkVideoState type videoId videoUrl (JInt 0) false
                       (Some (date_now1 clk)) userId in
        let s2 := set_roomVideoStates (insert k currentState) s1 in
        (* `Video loaded in room ${roomId}: ${type} - ${videoId || videoUrl}
            by ${userId}` *)
        log_then_return [roomId; type; js_or videoId videoUrl; userId] s2
          [ mkEmit (io_to s2 roomId) "video-load"
              (obj [("type", type); ("videoId", videoId); ("videoUrl", videoUrl);
                    ("userId", userId); ("timestamp", JInt (date_now2 clk))]) ]
    end.

(** [currentState.lastUpdated && now - currentState.lastUpdated < 300] *)
Definition debounced (now : Z) (cs : VideoState) : bool :=
  match lastUpdated cs with
  | None => false
  | Some t => negb (t =? 0)%Z && (now - t <? 300)%Z
  end.

(** [action === name] *)
Definition action_is (action : jsval) (name : string) : bool :=
  match action with
  | JStr a => String.eqb a name
  | _ => false
  end.

Definition with_time (t : jsval) (cs : VideoState) : VideoState :=
  mkVideoState (type cs) (videoId cs) (videoUrl cs) t (isPlaying cs)
               (lastUpdated cs) (lastUpdatedBy cs).
Definition with_playing (b : bool) (cs : VideoState) : VideoState :=
  mkVideoState (type cs) (videoId cs) (videoUrl cs) (currentTime cs) b
               (lastUpdated cs) (lastUpdatedBy cs).
Definition with_stamp (now : Z) (userId : jsval) (cs : VideoState) : VideoState :=
  mkVideoState (type cs) (videoId cs) (videoUrl cs) (currentTime cs) (isPlaying cs)
               (Some now) userId.

(** The [switch (action)] of the video-action handler. *)
Definition apply_action (action time : jsval) (cs : VideoState) : VideoState :=
  if action_is action "play" then
    with_playing true (with_time (js_or time (currentTime cs)) cs)
  else if action_is action "pause" then
    with_playing false (with_time (js_or time (currentTime cs)) cs)
  else if action_is action "seek" then
    with_time time cs
  else if action_is action "restart" then
    with_playing true (with_time (JInt 0) cs)
  else cs.

Definition on_video_action (clk : Clock) (sid : string) (data : jsval) (s : State) : outcome :=
  if negb (destructurable data) then Throw s [] else
  let roomId := get_prop data "roomId" in
  let action := get_prop data "action" in
  let time := get_prop data "time" in
  let userId := get_prop data "userId" in
  if negb (truthy roomId) || negb (truthy userId) then
    Done s [error sid "Invalid video action data"]
  else
    let k := key_of roomId in
    match roomVideoStates s !! k with
    | None => Done s [error sid "Room not found"]
    | Some currentState =>
        let now := date_now1 clk in
        if debounced now currentState then Done s []
        else
          let currentState :=
            with_stamp now userId (apply_action action time currentState) in
          (* `Video action in room ${roomId}: ${action} at ${time}s by ${userId}` *)
          log_then_return [roomId; action; time; userId]
            (set_roomVideoStates (insert k currentState) s)
            [ mkEmit (socket_to s sid roomId) "video-action"
                (obj (tbl_set "timestamp" (JInt now) (spread data))) ]
    end.

Definition on_chat_message (clk : Clock) (sid : string) (data : jsval) (s : State) : outcome :=
  if negb (destructurable data) then Throw s [] else
  let roomId := get_prop data "roomId" in
  let user := get_prop data "user" in
  let message := get_prop data "message" in
  if negb (truthy roomId) || negb (truthy user) || negb (truthy message) then
    Done s [error sid "Invalid chat message"]
  else
    Done s
      [ mkEmit (io_to s roomId) "chat-message"
          (obj [("user", user); ("message", message);
                ("timestamp", JInt (date_now1 clk))]) ].

(** The three signalling handlers differ only in the event name and in the
    name of the relayed property. *)
Definition on_signal (ev field : string) (sid : string) (data : jsval) (s : State) : outcome :=
  if negb (destructurable data) then Throw s [] else
  let roomId := get_prop data "roomId" in
  Done s
    [ mkEmit (socket_to s sid roomId) ev
        (obj [(field, get_prop data field); ("from", JStr sid)]) ].

Definition on_offer := on_signal "offer" "offer".
Definition on_answer := on_signal "answer" "answer".
Definition on_ice_candidate := on_signal "ice-candidate" "candidate".

(** [socket.data.roomId] and [socket.data.user]; both are [undefined] until
    a join-room sets them. *)
Definition socket_data (s : State) (sid : string) : jsval * jsval :=
  match sockets s !! sid with
  | Some sk => (data_roomId sk, data_user sk)
  | None => (JUndefined, JUndefined)
  end.

(** The part of [leave-room] and [disconnect] that runs when the room has a
    user map: delete the socket, tell the room, clean up an empty room. *)
Definition remove_user (sid : string) (roomId userName : jsval)
    (us : list (string * jsval)) (s : State) : State * list Emit :=
  let k := key_of roomId in
  let us' := tbl_delete sid us in
  let remainingUsers := tbl_values us' in
  let s1 := set_roomUsers (insert k us') s in
  let out :=
    [ mkEmit (socket_to s1 sid roomId) "user-left"
        (obj [("userName", userName);
              ("userCount", JInt (Z.of_nat (length remainingUsers)));
              ("users", arr remainingUsers)]) ] in
  if (length remainingUsers =? 0)%nat then (cleanup k s1, out) else (s1, out).

(** [remainingUsers.length === 0] after the socket was taken out of [us]. *)
Definition emptied (sid : string) (us : list (string * jsval)) : bool :=
  (length (tbl_values (tbl_delete sid us)) =? 0)%nat.

Definition on_leave_room (sid : string) (data : jsval) (s : State) : outcome :=
  if negb (destructurable data) then Throw s [] else
  let userId := get_prop data "userId" in
  let roomId := get_prop data "roomId" in
  if negb (truthy roomId) || negb (truthy userId) then
    Done s [error sid "Invalid leave room data"]
  else
    let k := key_of roomId in
    match roomUsers s !! k with
    | Some us =>
        (* user?.name || 'Unknown' *)
        let userName :=
          match tbl_get sid us with
          | Some user => js_or (get_prop user "name") (JStr "Unknown")
          | None => JStr "Unknown"
          end in
        let '(s1, out) := remove_user sid roomId userName us s in
        (* `Room ${roomId} cleaned up (no users)` *)
        if emptied sid us && negb (stringifiable roomId) then Throw s1 out
        else
          (* `User ${userId} left room ${roomId}` *)
          log_then_return [userId; roomId] (socket_leave sid roomId s1) out
    | None => log_then_return [userId; roomId] (socket_leave sid roomId s) []
    end.

(** When the [disconnect] listener runs socket.io has already taken the
    socket out of all its rooms; afterwards the socket is gone. *)
Definition on_disconnect (sid : string) (s : State) : outcome :=
  let '(roomId, user) := socket_data s sid in
  let s0 := set_sockets (delete sid) s in
  if truthy roomId && truthy user then
    let k := key_of roomId in
    match roomUsers s0 !! k with
    | Some us =>
        let '(s1, out) := remove_user sid roomId (get_prop user "name") us s0 in
        (* `Room ${roomId} cleaned up (no users)` *)
        if emptied sid us && negb (stringifiable roomId) then Throw s1 out
        else Done s1 out
    | None => Done s0 []
    end
  else Done s0 [].

(** ** Dispatch *)

Inductive Event :=
| Connection
| JoinRoom (data : jsval)
| VideoLoad (data : jsval)
| VideoAction (data : jsval)
| ChatMessage (data : jsval)
| Offer (data : jsval)
| Answer (data : jsval)
| IceCandidate (data : jsval)
| LeaveRoom (data : jsval)
| Disconnect.

(** On connection socket.io puts the socket into the room named by its own
    id; [socket.data] starts empty. *)
Definition on_connection (sid : string) (s : State) : outcome :=
  Done (set_sockets (insert sid (mkSocket JUndefined JUndefined {[KStr sid]})) s) [].

Definition handle (clk : Clock) (sid : string) (e : Event) (s : State) : outcome :=
  match e with
  | Connection => on_connection sid s
  | JoinRoom data => on_join_room clk sid data s
  | VideoLoad data => on_video_load clk sid data s
  | VideoAction data => on_video_action clk sid data s
  | ChatMessage data => on_chat_message clk sid data s
  | Offer data => on_offer sid data s
  | Answer data => on_answer sid data s
  | IceCandidate data => on_ice_candidate sid data s
  | LeaveRoom data => on_leave_room sid data s
  | Disconnect => on_disconnect sid s
  end.

(** One input of the server: which socket, what event, what the clock read. *)
Record Input := mkInput {
  in_clock : Clock;
  in_socket : string;
  in_event : Event
}.

(** Listeners exist only on connected sockets, and socket ids are not
    reused while in use. *)
Definition step (i : Input) (s : State) : outcome :=
  match in_event i, sockets s !! in_socket i with
  | Connection, None => on_connection (in_socket i) s
  | Connection, Some _ => Done s []
  | _, None => Done s []
  | e, Some _ => handle (in_clock i) (in_socket i) e s
  end.

(** Events are handled one after the other; a raised exception ends the run. *)
Fixpoint run (tr : list Input) (s : State) : option (State * list Emit) :=
  match tr with
  | [] => Some (s, [])
  | i :: tr' =>
      match step i s with
      | Throw _ _ => None
      | Done s1 out1 =>
          match run tr' s1 with
          | None => None
          | Some (s2, out2) => Some (s2, (out1 ++ out2)%list)
          end
      end
  end.

(** [s] is the state after the inputs [tr], starting from the empty server. *)
Definition reaches (tr : list Input) (s : State) : Prop :=
  ∃ out, run tr initial = Some (s, out).

(** * The vocabulary of the properties *)

(** ** Outcomes and rooms *)

(** The handler ran to its end or raised on the way, and either way it left
    the state [s] and had emitted [out]. *)
Definition ends_in (o : outcome) (s : State) (out : list Emit) : Prop :=
  o = Done s out ∨ o = Throw s out.

(** Socket [x] is connected and is in the socket.io room [k]. *)
Definition in_room (s : State) (x : string) (k : mapkey) : Prop :=
  ∃ sk, sockets s !! x = Some sk ∧ k ∈ sio_rooms sk.

(** Socket [x] is in the room that [roomId] names; written after socket.io's
    account of rooms, not after the handlers: an array names each of its
    elements, and the empty array every connected socket. *)
Definition room_member (s : State) (roomId : jsval) (x : string) : Prop :=
  match roomId with
  | JArr _ [] => is_Some (sockets s !! x)
  | JArr _ items => ∃ item, item ∈ items ∧ in_room s x (key_of item)
  | _ => in_room s x (key_of roomId)
  end.

(** The room named by the id of socket [sid] holds that socket and no
    other, as it does from the connection on until the socket leaves it or
    another socket joins it. *)
Definition own_room_intact (s : State) (sid : string) : Prop :=
  ∀ y, in_room s y (KStr sid) ↔ y = sid.

(** ** Events that pass the checks *)

(** The room a payload names, as the maps see it. *)
Definition room_of (data : jsval) : mapkey := key_of (get_prop data "roomId").

(** The field check of the video-action handler passes. *)
Definition valid_video_action (data : jsval) : Prop :=
  truthy (get_prop data "roomId") = true ∧ truthy (get_prop data "userId") = true.

(** The field check of the video-load handler passes. *)
Definition valid_video_load (data : jsval) : Prop :=
  truthy (get_prop data "roomId") = true ∧
  truthy (get_prop data "userId") = true ∧
  truthy (get_prop data "type") = true.

(** The field check of the chat-message handler passes. *)
Definition valid_chat_message (data : jsval) : Prop :=
  truthy (get_prop data "roomId") = true ∧
  truthy (get_prop data "user") = true ∧
  truthy (get_prop data "message") = true.

(** The values the handlers interpolate into their last log line. *)
Definition action_logged (data : jsval) : list jsval :=
  [get_prop data "roomId"; get_prop data "action"; get_prop data "time";
   get_prop data "userId"].
Definition load_logged (data : jsval) : list jsval :=
  [get_prop data "roomId"; get_prop data "type";
   js_or (get_prop data "videoId") (get_prop data "videoUrl");
   get_prop data "userId"].
Definition leave_logged (data : jsval) : list jsval :=
  [get_prop data "userId"; get_prop data "roomId"].

(** The video state after an action that gets through, and its broadcast. *)
Definition acted (clk : Clock) (data : jsval) (cs : VideoState) : VideoState :=
  with_stamp (date_now1 clk) (get_prop data "userId")
    (apply_action (get_prop data "action") (get_prop data "time") cs).

Definition action_broadcast (clk : Clock) (sid : string) (data : jsval) (s : State) : Emit :=
  mkEmit (socket_to s sid (get_prop data "roomId")) "video-action"
    (obj (tbl_set "timestamp" (JInt (date_now1 clk)) (spread data))).

(** The video state of room [k] was last updated at [t]. *)
Definition stamped (s : State) (k : mapkey) (t : Z) : Prop :=
  ∃ cs, roomVideoStates s !! k = Some cs ∧ lastUpdated cs = Some t.

(** The video state after a load, and its broadcast. *)
Definition loaded (clk : Clock) (data : jsval) : VideoState :=
  mkVideoState (get_prop data "type") (get_prop data "videoId")
    (get_prop data "videoUrl") (JInt 0) false (Some (date_now1 clk))
    (get_prop data "userId").

Definition load_broadcast (clk : Clock) (data : jsval) (s : State) : Emit :=
  mkEmit (io_to s (get_prop data "roomId")) "video-load"
    (obj [("type", get_prop data "type"); ("videoId", get_prop data "videoId");
          ("videoUrl", get_prop data "videoUrl"); ("userId", get_prop data "userId");
          ("timestamp", JInt (date_now2 clk))]).

(** ** A running example: two sockets in room "r1" *)

(** A handler run during which the clock does not move. *)
Definition at_time (t : Z) : Clock := mkClock t t t.

Definition alice : jsval := JObj 1 [("name", JStr "Alice"); ("id", JStr "u1")].
Definition bob : jsval := JObj 2 [("name", JStr "Bob"); ("id", JStr "u2")].

(** The payloads of join-room, video-action and video-load events. *)
Definition join (ref : nat) (user : jsval) (room : string) : jsval :=
  JObj ref [("user", user); ("roomId", JStr room)].

Definition action (ref : nat) (room name : string) (time : jsval) (userId : string) : jsval :=
  JObj ref [("roomId", JStr room); ("action", JStr name); ("time", time);
            ("userId", JStr userId)].

Definition load (ref : nat) (room kind videoId userId : string) : jsval :=
  JObj ref [("roomId", JStr room); ("type", JStr kind); ("videoId", JStr videoId);
            ("userId", JStr userId)].

(** Sockets "a" and "b" connect and join room "r1". *)
Definition two_in_r1 : list Input :=
  [ mkInput (at_time 100) "a" Connection;
    mkInput (at_time 200) "b" Connection;
    mkInput (at_time 300) "a" (JoinRoom (join 3 alice "r1"));
    mkInput (at_time 400) "b" (JoinRoom (join 4 bob "r1")) ].

(** Socket "a" connects and loads a video into room "r9", which nobody has
    joined. *)
Definition load_into_empty_room : list Input :=
  [ mkInput (at_time 100) "a" Connection;
    mkInput (at_time 200) "a" (VideoLoad (load 3 "r9" "youtube" "dQw4w9WgXcQ" "u1")) ].

(** The state a run ends in (the empty server if it raised). *)
Definition after (tr : list Input) : State :=
  match run tr initial with
  | Some (s, _) => s
  | None => initial
  end.

(** ** Payloads and audiences *)


(** The two room audiences of the router. *)
Inductive audience := RoomWide | Others.

(** The audience the specification gives each relayed event kind. *)
Definition audience_of (e : Event) : option audience :=
  match e with
  | VideoLoad _ | ChatMessage _ => Some RoomWide
  | VideoAction _ | Offer _ | Answer _ | IceCandidate _ => Some Others
  | _ => None
  end.

(** The name and the payload of an incoming event. *)
Definition event_name (e : Event) : string :=
  match e with
  | Connection => "connection"
  | JoinRoom _ => "join-room"
  | VideoLoad _ => "video-load"
  | VideoAction _ => "video-action"
  | ChatMessage _ => "chat-message"
  | Offer _ => "offer"
  | Answer _ => "answer"
  | IceCandidate _ => "ice-candidate"
  | LeaveRoom _ => "leave-room"
  | Disconnect => "disconnect"
  end.

Definition event_data (e : Event) : jsval :=
  match e with
  | JoinRoom d | VideoLoad d | VideoAction d | ChatMessage d
  | Offer d | Answer d | IceCandidate d | LeaveRoom d => d
  | Connection | Disconnect => JUndefined
  end.

(** The event is relayed: it passes the field check of its handler and, for
    a video-action, the room has a video state and the debounce lets it
    through.  The signalling handlers check nothing; their payload only has
    to be something that can be destructured. *)
Definition relayed (clk : Clock) (e : Event) (s : State) : Prop :=
  match e with
  | VideoLoad d => valid_video_load d
  | ChatMessage d => valid_chat_message d
  | VideoAction d =>
      valid_video_action d ∧
      ∃ cs, roomVideoStates s !! room_of d = Some cs ∧
            debounced (date_now1 clk) cs = false
  | Offer d | Answer d | IceCandidate d => destructurable d = true
  | _ => False
  end.

(** Socket [x] is sent a message named [ev]. *)
Definition delivered (out : list Emit) (ev : string) (x : string) : Prop :=
  ∃ m, m ∈ out ∧ event m = ev ∧ x ∈ recipients m.

(** ** Room state *)

(** Room record, video state and user map exist for the same room ids. *)
Definition matching (s : State) : Prop :=
  dom (rooms s) = dom (roomVideoStates s) ∧
  dom (roomVideoStates s) = dom (roomUsers s).

(** The state [remove_user] returns: the socket is taken out of the user
    map of room [k], and the room is cleaned up when the map is empty. *)
Definition removed (sid : string) (k : mapkey) (us : list (string * jsval))
    (s : State) : State :=
  let s1 := set_roomUsers (insert k (tbl_delete sid us)) s in
  match tbl_delete sid us with
  | [] => cleanup k s1
  | _ => s1
  end.

(** Every way a handler can return, by the state it returns. *)
Inductive effect (clk : Clock) (sid : string) (s : State) : Event → State → Prop :=
| eff_same e :
    effect clk sid s e s
| eff_connection :
    effect clk sid s Connection
      (set_sockets (insert sid (mkSocket JUndefined JUndefined {[KStr sid]})) s)
| eff_join data us :
    let roomId := get_prop data "roomId" in
    let user := set_prop (get_prop data "user") "socketId" (JStr sid) in
    let s1 := initializeRoom clk roomId s in
    truthy roomId = true →
    truthy (get_prop data "user") = true →
    roomUsers s1 !! room_of data = Some us →
    effect clk sid s (JoinRoom data)
      (socket_record sid roomId user
         (socket_join sid roomId
            (set_roomUsers (insert (room_of data) (tbl_set sid user us)) s1)))
| eff_load data :
    valid_video_load data →
    effect clk sid s (VideoLoad data)
      (set_roomVideoStates (insert (room_of data) (loaded clk data))
         (initializeRoom clk (get_prop data "roomId") s))
| eff_action data cs :
    valid_video_action data →
    roomVideoStates s !! room_of data = Some cs →
    debounced (date_now1 clk) cs = false →
    effect clk sid s (VideoAction data)
      (set_roomVideoStates (insert (room_of data) (acted clk data cs)) s)
| eff_leave data us :
    roomUsers s !! room_of data = Some us →
    effect clk sid s (LeaveRoom data)
      (socket_leave sid (get_prop data "roomId") (removed sid (room_of data) us s))
| eff_leave_unknown data :
    roomUsers s !! room_of data = None →
    effect clk sid s (LeaveRoom data) (socket_leave sid (get_prop data "roomId") s)
| eff_disconnect roomId user us :
    socket_data s sid = (roomId, user) →
    truthy roomId = true → truthy user = true →
    roomUsers s !! key_of roomId = Some us →
    effect clk sid s Disconnect
      (removed sid (key_of roomId) us (set_sockets (delete sid) s))
| eff_disconnect_only :
    effect clk sid s Disconnect (set_sockets (delete sid) s).

(** The entries of the user map of room [k]. *)
Definition presence (s : State) (k : mapkey) : list (string * jsval) :=
  default [] (roomUsers s !! k).

(** Socket [x] has an entry in the user map of room [k]. *)
Definition in_presence (s : State) (x : string) (k : mapkey) : Prop :=
  is_Some (tbl_get x (presence s k)).

(** The input is a join-room of socket [x] naming room [k]. *)
Definition joins (x : string) (k : mapkey) (i : Input) : Prop :=
  in_socket i = x ∧ ∃ data, in_event i = JoinRoom data ∧ room_of data = k.

(** The input is a video-load naming room [k]. *)
Definition loads (k : mapkey) (i : Input) : Prop :=
  ∃ data, in_event i = VideoLoad data ∧ room_of data = k.

(** Socket [x] sends no join-room in the run. *)
Definition never_joins (x : string) (tr : list Input) : Prop :=
  ∀ i, i ∈ tr → in_socket i = x → ∀ data, in_event i ≠ JoinRoom data.

(** socket.io gives every connection an id of its own: a connection event
    never carries an id seen earlier in the run. *)
Fixpoint fresh_ids (used : gset string) (tr : list Input) : Prop :=
  match tr with
  | [] => True
  | i :: tr' =>
      (in_event i = Connection → in_socket i ∉ used) ∧
      fresh_ids ({[in_socket i]} ∪ used) tr'
  end.

(** The key of a string, a number, a boolean, [null] or [undefined]. *)
Definition primitive (k : mapkey) : Prop := ∀ r, k ≠ KRef r.

(** A connected socket that has an entry in the user map of a room whose id
    is a primitive is in the socket.io room of the same name. *)
Definition presence_in_rooms (s : State) : Prop :=
  ∀ x k sk,
    primitive k → in_presence s x k → sockets s !! x = Some sk → k ∈ sio_rooms sk.

(** The user maps only hold sockets whose id is in [used]. *)
Definition presence_known (used : gset string) (s : State) : Prop :=
  ∀ x k, in_presence s x k → x ∈ used.

(** * Further vocabulary *)

(** The video state a room starts with. *)
Definition pristine : VideoState :=
  mkVideoState JNull JNull JNull (JInt 0) false None JNull.

(** The user object the join-room handler stores: the one the client sent,
    with [socketId] set by the server. *)
Definition joining_user (sid : string) (data : jsval) : jsval :=
  set_prop (get_prop data "user") "socketId" (JStr sid).

(** The field check of the join-room handler passes. *)
Definition valid_join (data : jsval) : Prop :=
  truthy (get_prop data "user") = true ∧ truthy (get_prop data "roomId") = true.

(** The [userCount] and the [users] of a membership payload. *)
Definition userCount_of (m : Emit) : jsval := get_prop (payload m) "userCount".
Definition users_of (m : Emit) : jsval := get_prop (payload m) "users".

(** The state after a join-room that passes the field check. *)
Definition joined (clk : Clock) (sid : string) (data : jsval) (s : State) : State :=
  let roomId := get_prop data "roomId" in
  socket_record sid roomId (joining_user sid data)
    (socket_join sid roomId
       (set_roomUsers
          (insert (room_of data)
             (tbl_set sid (joining_user sid data) (presence s (room_of data))))
          (initializeRoom clk roomId s))).

(** The two messages of a join-room: the snapshot for the joiner and the
    notice for the room. *)
Definition join_messages (clk : Clock) (sid : string) (data : jsval) (s : State)
    : list Emit :=
  let roomId := get_prop data "roomId" in
  let usersInRoom :=
    tbl_values (tbl_set sid (joining_user sid data) (presence s (room_of data))) in
  let userCount := JInt (Z.of_nat (length usersInRoom)) in
  [ mkEmit {[sid]} "room-joined"
      (obj [("roomId", roomId); ("userCount", userCount);
            ("currentVideoState",
             js_of_VideoState (default pristine (roomVideoStates s !! room_of data)));
            ("users", arr usersInRoom)]);
    mkEmit (socket_to (joined clk sid data s) sid roomId) "user-joined"
      (obj [("user", joining_user sid data); ("userCount", userCount);
            ("users", arr usersInRoom)]) ].

(** The values the final log line of the join-room handler interpolates. *)
Definition join_logged (sid : string) (data : jsval) : list jsval :=
  [get_prop (joining_user sid data) "name"; get_prop data "roomId"].

(** The one room an event can change: the room its payload names, and for a
    disconnect the room recorded on the socket. *)
Definition touched (sid : string) (e : Event) (s : State) : mapkey :=
  match e with
  | Disconnect => key_of (socket_data s sid).1
  | _ => room_of (event_data e)
  end.

(** The field check of the leave-room handler passes. *)
Definition valid_leave (data : jsval) : Prop :=
  truthy (get_prop data "roomId") = true ∧ truthy (get_prop data "userId") = true.

(** [user?.name || 'Unknown'] for the entry of the leaving socket. *)
Definition leaving_name (sid : string) (us : list (string * jsval)) : jsval :=
  match tbl_get sid us with
  | Some user => js_or (get_prop user "name") (JStr "Unknown")
  | None => JStr "Unknown"
  end.

(** The user-left notice. *)
Definition user_left (s : State) (sid : string) (roomId userName : jsval)
    (us : list (string * jsval)) : Emit :=
  mkEmit (socket_to s sid roomId) "user-left"
    (obj [("userName", userName);
          ("userCount", JInt (Z.of_nat (length (tbl_values (tbl_delete sid us)))));
          ("users", arr (tbl_values (tbl_delete sid us)))]).

(** ** The room named by a socket's id *)

(** The event is a join-room or a leave-room whose [roomId] names the
    socket.io room [k]; in a join-room an array names each of its
    elements. *)
Definition names_room (k : mapkey) (e : Event) : bool :=
  match e with
  | JoinRoom data => bool_decide (k ∈ sio_names (get_prop data "roomId"))
  | LeaveRoom data => bool_decide (key_of (get_prop data "roomId") = k)
  | _ => false
  end.

(** No join-room and no leave-room of the run names room [k]. *)
Definition left_alone (k : mapkey) (tr : list Input) : bool :=
  forallb (λ i, negb (names_room k (in_event i))) tr.

(** Among the connected sockets, the room named by the id [o] holds the
    socket [o] and no other. *)
Definition only_owner (s : State) (o : string) : Prop :=
  ∀ y sk, sockets s !! y = Some sk → KStr o ∈ sio_rooms sk ↔ y = o.

(** * Properties *)

(** ** Tables *)

Lemma eqb_sym_false (a b : string) : a ≠ b → String.eqb b a = false.
Proof. intros Hne. apply String.eqb_neq. congruence. Qed.

Section TableFacts.
Context {A : Type}.
Implicit Types (t : list (string * A)) (k : string).

Lemma tbl_get_set_eq k x t : tbl_get k (tbl_set k x t) = Some x.
Proof.
  induction t as [|[k' v] t IH]; simpl.
  - by rewrite String.eqb_refl.
  - destruct (String.eqb k k') eqn:E; simpl.
    + by rewrite String.eqb_refl.
    + by rewrite E.
Qed.

Lemma tbl_get_set_ne k k' x t : k ≠ k' → tbl_get k' (tbl_set k x t) = tbl_get k' t.
Proof.
  intros Hne. induction t as [|[k0 v] t IH]; simpl.
  - by rewrite eqb_sym_false.
  - destruct (String.eqb k k0) eqn:E; simpl.
    + apply String.eqb_eq in E as <-. by rewrite eqb_sym_false.
    + by rewrite IH.
Qed.

Lemma tbl_set_not_nil k x t : tbl_set k x t ≠ [].
Proof. destruct t as [|[k' v] t]; simpl; [done|]. by destruct (String.eqb k k'). Qed.

Lemma tbl_get_delete_eq k t : tbl_get k (tbl_delete k t) = None.
Proof.
  induction t as [|[k' v] t IH]; simpl; [done|].
  destruct (String.eqb k k') eqn:E; simpl; [done|]. by rewrite E.
Qed.

Lemma tbl_get_delete_ne k k' t : k ≠ k' → tbl_get k' (tbl_delete k t) = tbl_get k' t.
Proof.
  intros Hne. induction t as [|[k0 v] t IH]; simpl; [done|].
  destruct (String.eqb k k0) eqn:E; simpl.
  - apply String.eqb_eq in E as <-. by rewrite IH, eqb_sym_false.
  - by rewrite IH.
Qed.

Lemma tbl_get_delete_Some k k' t x :
  tbl_get k' (tbl_delete k t) = Some x → tbl_get k' t = Some x.
Proof.
  destruct (decide (k = k')) as [->|Hne].
  - by rewrite tbl_get_delete_eq.
  - by rewrite tbl_get_delete_ne.
Qed.

End TableFacts.

(** ** Truthiness *)

Lemma truthy_get_prop_obj data k :
  truthy (get_prop data k) = true → ∃ r ps, data = JObj r ps.
Proof. destruct data; simpl; try done. eauto. Qed.

Lemma truthy_destructurable data k :
  truthy (get_prop data k) = true → destructurable data = true.
Proof. by intros (r & ps & ->)%truthy_get_prop_obj. Qed.

(** Zero is the one integer that is falsy. *)
Lemma truthy_JInt z : truthy (JInt z) = negb (z =? 0)%Z.
Proof.
  unfold JInt, truthy, Q2Qc, this.
  rewrite Qred_identity; [done|]. apply Z.gcd_1_r.
Qed.


(** ** socket.io rooms *)

Lemma elem_of_members s k sid :
  sid ∈ members s k ↔ ∃ sk, sockets s !! sid = Some sk ∧ k ∈ sio_rooms sk.
Proof.
  unfold members. rewrite elem_of_dom. split.
  - intros [sk [Hsk Hk]%map_lookup_filter_Some]. eauto.
  - intros (sk & Hsk & Hk). exists sk. by apply map_lookup_filter_Some.
Qed.

Lemma elem_of_socket_to s sid room x :
  x ∈ socket_to s sid room ↔ x ∈ io_to s room ∧ x ∉ members s (KStr sid).
Proof. unfold socket_to. by rewrite elem_of_difference. Qed.

Lemma sender_not_in_socket_to s sid room :
  sid ∈ members s (KStr sid) → sid ∉ socket_to s sid room.
Proof. rewrite elem_of_socket_to. tauto. Qed.

Lemma elem_of_io_to_member s room x : x ∈ io_to s room ↔ room_member s room x.
Proof.
  destruct room as [| | | | |r ps|r [|item items]];
    try (unfold io_to, in_rooms, room_member, in_room; simpl;
         rewrite ?(right_id_L ∅ (∪)); by apply elem_of_members).
  - unfold io_to, in_rooms, room_member. simpl. apply elem_of_dom.
  - change (x ∈ ⋃ (members s <$> (key_of <$> (item :: items))) ↔
            ∃ it, it ∈ item :: items ∧ in_room s x (key_of it)).
    rewrite elem_of_union_list. split.
    + intros (X & HX & Hin). apply list_elem_of_fmap in HX as (k & -> & Hk).
      apply list_elem_of_fmap in Hk as (it & -> & Hit).
      exists it. split; [done|]. by apply elem_of_members.
    + intros (it & Hit & Hin). exists (members s (key_of it)). split.
      * apply list_elem_of_fmap. exists (key_of it). split; [done|].
        apply list_elem_of_fmap. eauto.
      * by apply elem_of_members.
Qed.

Lemma elem_of_socket_to_member s sid room x :
  x ∈ socket_to s sid room ↔ room_member s room x ∧ ¬ in_room s x (KStr sid).
Proof.
  rewrite elem_of_socket_to, elem_of_io_to_member.
  unfold in_room. by rewrite <- elem_of_members.
Qed.

(** When its own room holds the socket alone, [socket.to] leaves out the
    socket and nobody else. *)
Lemma elem_of_socket_to_intact s sid room x :
  own_room_intact s sid →
  x ∈ socket_to s sid room ↔ room_member s room x ∧ x ≠ sid.
Proof.
  intros Hown. rewrite elem_of_socket_to_member.
  pose proof (Hown x). tauto.
Qed.

(** [log_then_return] ends in the state and the messages it was given. *)
Lemma log_then_return_ends_in vs s out : ends_in (log_then_return vs s out) s out.
Proof. unfold ends_in, log_then_return. destruct (forallb _ _); eauto. Qed.

Lemma log_then_return_Done vs s out :
  forallb stringifiable vs = true → log_then_return vs s out = Done s out.
Proof. unfold log_then_return. by intros ->. Qed.

Lemma log_then_return_inv vs s out s' out' :
  log_then_return vs s out = Done s' out' → s' = s ∧ out' = out.
Proof. unfold log_then_return. destruct (forallb _ _); [|done]. by intros [= -> ->]. Qed.

(** A room id that is not an array names one room. *)
Lemma io_to_one_room s room :
  (∀ r items, room ≠ JArr r items) → io_to s room = members s (key_of room).
Proof.
  intros Hroom. unfold io_to, in_rooms.
  destruct room; simpl; try apply (right_id_L ∅ (∪)).
  by destruct (Hroom ref items).
Qed.

(** ** [initializeRoom] *)

Section InitializeRoom.
Variables (clk : Clock) (roomId : jsval) (s : State).
Let k := key_of roomId.
Let s' := initializeRoom clk roomId s.

Lemma initializeRoom_sockets : sockets s' = sockets s.
Proof.
  subst s'. unfold initializeRoom.
  repeat (match goal with |- context [if ?b then _ else _] => destruct b end);
    reflexivity.
Qed.

Lemma initializeRoom_rooms :
  rooms s' = if has (rooms s) k then rooms s
             else <[k := mkRoom roomId (date_new clk) []]> (rooms s).
Proof.
  subst s' k. unfold initializeRoom.
  destruct (has (rooms s) _); simpl;
    repeat (match goal with |- context [if ?b then _ else _] => destruct b end);
    reflexivity.
Qed.

Lemma initializeRoom_roomVideoStates :
  roomVideoStates s' =
    if has (roomVideoStates s) k then roomVideoStates s
    else <[k := mkVideoState JNull JNull JNull (JInt 0) false None JNull]>
           (roomVideoStates s).
Proof.
  subst s' k. unfold initializeRoom.
  destruct (has (rooms s) _); simpl;
    destruct (has (roomVideoStates s) _); simpl;
    repeat (match goal with |- context [if ?b then _ else _] => destruct b end);
    reflexivity.
Qed.

Lemma initializeRoom_roomUsers :
  roomUsers s' = if has (roomUsers s) k then roomUsers s else <[k := []]> (roomUsers s).
Proof.
  subst s' k. unfold initializeRoom.
  destruct (has (rooms s) _); simpl;
    destruct (has (roomVideoStates s) _); simpl;
    destruct (has (roomUsers s) _); reflexivity.
Qed.

End InitializeRoom.

Lemma has_true {V} (m : gmap mapkey V) k : has m k = true ↔ is_Some (m !! k).
Proof. unfold has. by rewrite bool_decide_eq_true. Qed.

Lemma has_false {V} (m : gmap mapkey V) k : has m k = false ↔ m !! k = None.
Proof. unfold has. by rewrite bool_decide_eq_false, eq_None_not_Some. Qed.

(** What a lookup sees after [m.has(k) || m.set(k, v)]. *)
Lemma lookup_ensure {V} (m : gmap mapkey V) k v k' :
  (if has m k then m else <[k := v]> m) !! k' =
    match m !! k' with
    | Some x => Some x
    | None => if decide (k = k') then Some v else None
    end.
Proof.
  destruct (has m k) eqn:E.
  - apply has_true in E as [x Hx].
    destruct (m !! k') eqn:E'; [done|]. case_decide; [|done]. congruence.
  - apply has_false in E. destruct (decide (k = k')) as [<-|Hne].
    + by rewrite lookup_insert_eq, E.
    + rewrite lookup_insert_ne by done. by destruct (m !! k').
Qed.

Lemma initializeRoom_videoState_is_Some clk roomId s :
  is_Some (roomVideoStates (initializeRoom clk roomId s) !! key_of roomId).
Proof.
  rewrite initializeRoom_roomVideoStates, lookup_ensure.
  destruct (_ !! _); [eauto|]. case_decide; [eauto|done].
Qed.

(** ** The video-action handler *)

Lemma on_video_action_accepted clk sid data s cs :
  valid_video_action data →
  roomVideoStates s !! room_of data = Some cs →
  debounced (date_now1 clk) cs = false →
  on_video_action clk sid data s =
    log_then_return (action_logged data)
      (set_roomVideoStates (insert (room_of data) (acted clk data cs)) s)
      [action_broadcast clk sid data s].
Proof.
  intros [Hroom Huser] Hcs Hdeb. unfold on_video_action.
  rewrite (truthy_destructurable _ _ Hroom), Hroom, Huser. simpl.
  unfold room_of in Hcs. by rewrite Hcs, Hdeb.
Qed.

(** An action that gets through leaves the stamped state and its one
    broadcast behind, whether or not the log line then raises. *)
Lemma on_video_action_ends_in clk sid data s cs :
  valid_video_action data →
  roomVideoStates s !! room_of data = Some cs →
  debounced (date_now1 clk) cs = false →
  ends_in (on_video_action clk sid data s)
    (set_roomVideoStates (insert (room_of data) (acted clk data cs)) s)
    [action_broadcast clk sid data s].
Proof.
  intros Hv Hcs Hdeb. rewrite (on_video_action_accepted _ _ _ _ cs) by done.
  apply log_then_return_ends_in.
Qed.

Lemma on_video_action_debounced clk sid data s cs :
  valid_video_action data →
  roomVideoStates s !! room_of data = Some cs →
  debounced (date_now1 clk) cs = true →
  on_video_action clk sid data s = Done s [].
Proof.
  intros [Hroom Huser] Hcs Hdeb. unfold on_video_action.
  rewrite (truthy_destructurable _ _ Hroom), Hroom, Huser. simpl.
  unfold room_of in Hcs. by rewrite Hcs, Hdeb.
Qed.

(** Within 300ms of a stamp taken at a non-zero clock reading the next
    action is debounced. *)
Lemma debounced_after_stamp now now' cs :
  lastUpdated cs = Some now → now ≠ 0%Z → (now' - now < 300)%Z →
  debounced now' cs = true.
Proof.
  intros Hlu Hnz Hlt. unfold debounced. rewrite Hlu.
  apply andb_true_intro. split.
  - apply negb_true_iff, Z.eqb_neq, Hnz.
  - by apply Z.ltb_lt.
Qed.

Lemma on_video_action_within_window clk sid data s t :
  valid_video_action data →
  stamped s (room_of data) t → t ≠ 0%Z → (date_now1 clk - t < 300)%Z →
  on_video_action clk sid data s = Done s [].
Proof.
  intros Hv (cs & Hcs & Hlu) Hnz Hlt.
  eapply on_video_action_debounced; [done..|].
  by apply (debounced_after_stamp t).
Qed.

(** What [play] and [pause] do to the position: [time || currentTime]. *)
Lemma play_pause_position action time cs :
  action = JStr "play" ∨ action = JStr "pause" →
  currentTime (apply_action action time cs) =
    (if truthy time then time else currentTime cs) ∧
  isPlaying (apply_action action time cs) = action_is action "play".
Proof. intros [-> | ->]; done. Qed.

(** ** The video-load handler *)

Lemma io_to_sockets s s' room : sockets s = sockets s' → io_to s room = io_to s' room.
Proof. unfold io_to, in_rooms, members. by intros ->. Qed.

Lemma on_video_load_valid clk sid data s :
  valid_video_load data →
  on_video_load clk sid data s =
    log_then_return (load_logged data)
      (set_roomVideoStates (insert (room_of data) (loaded clk data))
         (initializeRoom clk (get_prop data "roomId") s))
      [load_broadcast clk data s].
Proof.
  intros (Hroom & Huser & Htype). unfold on_video_load.
  rewrite (truthy_destructurable _ _ Hroom), Hroom, Huser, Htype. simpl.
  destruct (initializeRoom_videoState_is_Some clk (get_prop data "roomId") s)
    as [cs ->].
  unfold load_broadcast.
  by rewrite (io_to_sockets _ s) by apply initializeRoom_sockets.
Qed.

Lemma on_video_load_ends_in clk sid data s :
  valid_video_load data →
  ends_in (on_video_load clk sid data s)
    (set_roomVideoStates (insert (room_of data) (loaded clk data))
       (initializeRoom clk (get_prop data "roomId") s))
    [load_broadcast clk data s].
Proof.
  intros Hv. rewrite on_video_load_valid by done. apply log_then_return_ends_in.
Qed.

(** ** Runs of the running example *)

Lemma reaches_after tr : is_Some (run tr initial) → reaches tr (after tr).
Proof.
  unfold reaches, after. intros [[s out] ->]. by exists out.
Qed.


(** ** Debounce *)

(** C2, with the premises it needs: two video-action events for the same room
    that pass the field check, the first of which gets through (the room has
    a video state and the first event is outside the debounce window) at a
    non-zero clock reading, and the second of which comes less than 300ms
    later.  The first stamps the video state and is broadcast to the sockets
    of the room other than those in the room named by the sender's id; the
    second, handled next or in any later state in which the stamp of the
    first is still the last update of the room, changes nothing and emits
    nothing, neither a broadcast nor an error. *)
Theorem C2_second_action_dropped clk1 clk2 sid1 sid2 d1 d2 s cs :
  valid_video_action d1 → valid_video_action d2 →
  room_of d1 = room_of d2 →
  roomVideoStates s !! room_of d1 = Some cs →
  debounced (date_now1 clk1) cs = false →
  date_now1 clk1 ≠ 0%Z →
  (date_now1 clk2 - date_now1 clk1 < 300)%Z →
  ∃ s1 m1,
    ends_in (on_video_action clk1 sid1 d1 s) s1 [m1] ∧
    event m1 = "video-action" ∧
    (∀ x, x ∈ recipients m1 ↔
          room_member s (get_prop d1 "roomId") x ∧ ¬ in_room s x (KStr sid1)) ∧
    roomVideoStates s1 !! room_of d1 = Some (acted clk1 d1 cs) ∧
    lastUpdated (acted clk1 d1 cs) = Some (date_now1 clk1) ∧
    lastUpdatedBy (acted clk1 d1 cs) = get_prop d1 "userId" ∧
    on_video_action clk2 sid2 d2 s1 = Done s1 [] ∧
    ∀ s2, stamped s2 (room_of d1) (date_now1 clk1) →
          on_video_action clk2 sid2 d2 s2 = Done s2 [].
Proof.
  intros Hv1 Hv2 Hsame Hcs Hdeb Hnz Hlt.
  assert (∀ s2, stamped s2 (room_of d1) (date_now1 clk1) →
                on_video_action clk2 sid2 d2 s2 = Done s2 []) as Hdrop.
  { intros s2 Hst. rewrite Hsame in Hst.
    by apply (on_video_action_within_window _ _ _ _ (date_now1 clk1)). }
  eexists _, _. split; [by apply on_video_action_ends_in|].
  split; [done|]. split; [intros x; apply elem_of_socket_to_member|].
  split; [apply lookup_insert_eq|]. do 2 (split; [done|]).
  split; [|done]. apply Hdrop. eexists. split; [apply lookup_insert_eq|done].
Qed.

(** An instance: in room "r1" a play at 1000 gets through and a pause at
    1200 is dropped. *)
Lemma C2_second_action_dropped_witness :
  let s := after two_in_r1 in
  let d1 := action 5 "r1" "play" (JInt 7) "u1" in
  let d2 := action 6 "r1" "pause" (JInt 9) "u2" in
  let cs := mkVideoState JNull JNull JNull (JInt 0) false None JNull in
  (1000 ≠ 0 ∧ 1200 - 1000 < 300)%Z ∧
  ∃ s1 m1,
    ends_in (on_video_action (at_time 1000) "a" d1 s) s1 [m1] ∧
    event m1 = "video-action" ∧
    (∀ x, x ∈ recipients m1 ↔
          room_member s (get_prop d1 "roomId") x ∧ ¬ in_room s x (KStr "a")) ∧
    roomVideoStates s1 !! room_of d1 = Some (acted (at_time 1000) d1 cs) ∧
    lastUpdated (acted (at_time 1000) d1 cs) = Some 1000%Z ∧
    lastUpdatedBy (acted (at_time 1000) d1 cs) = get_prop d1 "userId" ∧
    on_video_action (at_time 1200) "b" d2 s1 = Done s1 [] ∧
    ∀ s2, stamped s2 (room_of d1) 1000 →
          on_video_action (at_time 1200) "b" d2 s2 = Done s2 [].
Proof.
  intros s d1 d2 cs. split; [lia|].
  apply (C2_second_action_dropped (at_time 1000) (at_time 1200) "a" "b" d1 d2 s cs).
  - split; reflexivity.
  - split; reflexivity.
  - reflexivity.
  - vm_compute; reflexivity.
  - reflexivity.
  - simpl; lia.
  - simpl; lia.
Defined.

(** C2 as the specification words it fails when the first of the two events
    is itself inside the debounce window of an earlier action: after an
    action at 1000, an action at 1200 is dropped, and the one at 1400, 200ms
    after it, gets through, restamps the video state and is broadcast. *)
Lemma C2_counterexample :
  let s := after (two_in_r1 ++
             [mkInput (at_time 1000) "a" (VideoAction (action 5 "r1" "play" (JInt 7) "u1"))]) in
  let d1 := action 6 "r1" "pause" (JInt 9) "u2" in
  let d2 := action 7 "r1" "seek" (JInt 42) "u1" in
  valid_video_action d1 ∧ valid_video_action d2 ∧ room_of d1 = room_of d2 ∧
  is_Some (roomVideoStates s !! room_of d1) ∧
  (Z.abs (1400 - 1200) < 300)%Z ∧
  on_video_action (at_time 1200) "b" d1 s = Done s [] ∧
  ∃ s2 m,
    on_video_action (at_time 1400) "a" d2 s = Done s2 [m] ∧
    (lastUpdated <$> roomVideoStates s !! room_of d2) = Some (Some 1000%Z) ∧
    (lastUpdated <$> roomVideoStates s2 !! room_of d2) = Some (Some 1400%Z) ∧
    (currentTime <$> roomVideoStates s2 !! room_of d2) = Some (JInt 42) ∧
    event m = "video-action" ∧ recipients m = {["b"]}.
Proof.
  intros s d1 d2.
  split; [by split|]. split; [by split|]. split; [done|].
  split; [vm_compute; eauto|]. split; [lia|].
  split; [vm_compute; reflexivity|].
  eexists _, _. split; [vm_compute; reflexivity|].
  repeat split; vm_compute; reflexivity.
Qed.

(** C10, with the premises it needs: a video-load that passes its field check
    goes through whatever the video state was (it is never debounced) and
    stamps [lastUpdated] with the clock, here a non-zero reading; a
    video-action for the same room that passes its field check and comes
    less than 300ms after the load changes nothing and emits nothing, when
    it is handled next and in any later state in which the stamp of the load
    is still the last update of the room. *)
Theorem C10_action_after_load_dropped clk1 clk2 sid1 sid2 load act s :
  valid_video_load load → valid_video_action act →
  room_of act = room_of load →
  date_now1 clk1 ≠ 0%Z →
  (date_now1 clk2 - date_now1 clk1 < 300)%Z →
  ∃ s1,
    ends_in (on_video_load clk1 sid1 load s) s1 [load_broadcast clk1 load s] ∧
    roomVideoStates s1 !! room_of load = Some (loaded clk1 load) ∧
    lastUpdated (loaded clk1 load) = Some (date_now1 clk1) ∧
    on_video_action clk2 sid2 act s1 = Done s1 [] ∧
    ∀ s2, stamped s2 (room_of load) (date_now1 clk1) →
          on_video_action clk2 sid2 act s2 = Done s2 [].
Proof.
  intros Hload Hact Hsame Hnz Hlt.
  assert (∀ s2, stamped s2 (room_of load) (date_now1 clk1) →
                on_video_action clk2 sid2 act s2 = Done s2 []) as Hdrop.
  { intros s2 Hst. rewrite <- Hsame in Hst.
    by apply (on_video_action_within_window _ _ _ _ (date_now1 clk1)). }
  eexists. split; [by apply on_video_load_ends_in|].
  split; [apply lookup_insert_eq|]. split; [done|].
  split; [|done]. apply Hdrop. eexists. split; [apply lookup_insert_eq|done].
Qed.

(** An instance: a load at 5000 and a play at 5299 in room "r1". *)
Lemma C10_action_after_load_dropped_witness :
  let s := after two_in_r1 in
  let ld := load 5 "r1" "youtube" "dQw4w9WgXcQ" "u1" in
  let act := action 6 "r1" "play" (JInt 0) "u2" in
  (5000 ≠ 0 ∧ 5299 - 5000 < 300)%Z ∧
  ∃ s1,
    ends_in (on_video_load (at_time 5000) "a" ld s) s1
      [load_broadcast (at_time 5000) ld s] ∧
    roomVideoStates s1 !! room_of ld = Some (loaded (at_time 5000) ld) ∧
    lastUpdated (loaded (at_time 5000) ld) = Some 5000%Z ∧
    on_video_action (at_time 5299) "b" act s1 = Done s1 [] ∧
    ∀ s2, stamped s2 (room_of ld) 5000 →
          on_video_action (at_time 5299) "b" act s2 = Done s2 [].
Proof.
  intros s ld act. split; [lia|].
  apply (C10_action_after_load_dropped (at_time 5000) (at_time 5299) "a" "b" ld act s).
  - repeat split; reflexivity.
  - split; reflexivity.
  - reflexivity.
  - simpl; lia.
  - simpl; lia.
Defined.

(** C10 as the specification words it fails when the stamp of the load does
    not last: "a" loads a video into "r1" at 1000, then "b" and "a" leave
    (the room and its video state are deleted) and join again (a new room,
    never updated); the play that "a" sends at 1100, 100ms after the load,
    gets through and is broadcast to "b". *)
Lemma C10_counterexample :
  let tr := (two_in_r1 ++
    [ mkInput (at_time 1000) "a" (VideoLoad (load 5 "r1" "youtube" "dQw4w9WgXcQ" "u1"));
      mkInput (at_time 1040) "b"
        (LeaveRoom (JObj 6 [("roomId", JStr "r1"); ("userId", JStr "u2")]));
      mkInput (at_time 1050) "a"
        (LeaveRoom (JObj 7 [("roomId", JStr "r1"); ("userId", JStr "u1")]));
      mkInput (at_time 1060) "a" (JoinRoom (join 8 alice "r1"));
      mkInput (at_time 1080) "b" (JoinRoom (join 9 bob "r1")) ])%list in
  let s := after tr in
  let act := action 10 "r1" "play" (JInt 5) "u1" in
  reaches tr s ∧ valid_video_action act ∧ (1100 - 1000 < 300)%Z ∧
  ∃ s' m,
    on_video_action (at_time 1100) "a" act s = Done s' [m] ∧
    event m = "video-action" ∧ recipients m = {["b"]} ∧
    (isPlaying <$> roomVideoStates s' !! KStr "r1") = Some true ∧
    (lastUpdated <$> roomVideoStates s' !! KStr "r1") = Some (Some 1100%Z).
Proof.
  intros tr s act. split; [apply reaches_after; vm_compute; eauto|].
  split; [by split|]. split; [lia|].
  eexists _, _. split; [vm_compute; reflexivity|].
  repeat split; vm_compute; reflexivity.
Qed.

(** ** The actions *)

(** C7: a restart that gets through (field check passed, the room has a
    video state, outside the debounce window) sets the position to 0 and the
    playing flag to true, whatever [time] the event carries; that is the
    state the handler leaves, also when its log line then raises on a
    value it cannot print. *)
Theorem C7_restart_from_the_beginning clk sid data s cs :
  valid_video_action data →
  get_prop data "action" = JStr "restart" →
  roomVideoStates s !! room_of data = Some cs →
  debounced (date_now1 clk) cs = false →
  ∃ s' out cs',
    ends_in (on_video_action clk sid data s) s' out ∧
    roomVideoStates s' !! room_of data = Some cs' ∧
    currentTime cs' = JInt 0 ∧ isPlaying cs' = true.
Proof.
  intros Hv Hact Hcs Hdeb. eexists _, _, _. split.
  { by apply on_video_action_ends_in. }
  split; [apply lookup_insert_eq|].
  unfold acted. by rewrite Hact.
Qed.

(** An instance: room "r1" is at position 42 and a restart carries
    [time: 99]. *)
Lemma C7_restart_from_the_beginning_witness :
  let s := after (two_in_r1 ++
             [mkInput (at_time 1000) "a" (VideoAction (action 5 "r1" "seek" (JInt 42) "u1"))]) in
  let d := action 6 "r1" "restart" (JInt 99) "u2" in
  (currentTime <$> roomVideoStates s !! room_of d) = Some (JInt 42) ∧
  ∃ s' out cs',
    ends_in (on_video_action (at_time 2000) "b" d s) s' out ∧
    roomVideoStates s' !! room_of d = Some cs' ∧
    currentTime cs' = JInt 0 ∧ isPlaying cs' = true.
Proof.
  intros s d. split; [vm_compute; reflexivity|].
  apply (C7_restart_from_the_beginning (at_time 2000) "b" d s
           (mkVideoState JNull JNull JNull (JInt 42) false (Some 1000%Z) (JStr "u1"))).
  - split; reflexivity.
  - reflexivity.
  - vm_compute; reflexivity.
  - reflexivity.
Defined.




(** C3 at the input on which the handler departs from it: the room is at
    position 42 and a play arrives with [time: 0].  The position stays 42
    (the playing flag is set), while the broadcast tells the other member
    to play from 0. *)
Lemma C3_play_at_zero_keeps_position :
  let s := after (two_in_r1 ++
             [mkInput (at_time 1000) "a" (VideoAction (action 5 "r1" "seek" (JInt 42) "u1"))]) in
  let d := action 6 "r1" "play" (JInt 0) "u2" in
  (currentTime <$> roomVideoStates s !! room_of d) = Some (JInt 42) ∧
  ∃ s' m,
    on_video_action (at_time 2000) "b" d s = Done s' [m] ∧
    (currentTime <$> roomVideoStates s' !! room_of d) = Some (JInt 42) ∧
    (isPlaying <$> roomVideoStates s' !! room_of d) = Some true ∧
    recipients m = {["a"]} ∧ get_prop (payload m) "time" = JInt 0.
Proof.
  intros s d. split; [vm_compute; reflexivity|].
  eexists _, _. split; [vm_compute; reflexivity|].
  repeat split; vm_compute; reflexivity.
Qed.

(** ** What the payloads carry *)

Ltac handler_cases H :=
  repeat match type of H with
         | context [if ?b then _ else _] => destruct b eqn:?
         | context [match ?x with _ => _ end] => destruct x eqn:?
         end;
  try discriminate H.

Lemma remove_user_out sid roomId userName us s :
  (remove_user sid roomId userName us s).2 =
    [ mkEmit (socket_to s sid roomId) "user-left"
        (obj [("userName", userName);
              ("userCount", JInt (Z.of_nat (length (tbl_values (tbl_delete sid us)))));
              ("users", arr (tbl_values (tbl_delete sid us)))]) ].
Proof. unfold remove_user. by destruct (_ =? _)%nat. Qed.




(** ** Audiences *)

Lemma delivered_singleton m ev x :
  event m = ev → delivered [m] ev x ↔ x ∈ recipients m.
Proof.
  intros Hev. unfold delivered. split.
  - intros (m' & ->%list_elem_of_singleton & _ & Hx). done.
  - intros Hx. exists m. split; [apply list_elem_of_here|done].
Qed.

Lemma on_signal_Done ev field sid data s :
  destructurable data = true →
  on_signal ev field sid data s =
    Done s [ mkEmit (socket_to s sid (get_prop data "roomId")) ev
               (obj [(field, get_prop data field); ("from", JStr sid)]) ].
Proof. intros Hd. unfold on_signal. by rewrite Hd. Qed.




(** As long as the sender is in the room named by its own id, no handler
    sends a video-action, offer, answer or ice-candidate message to the
    socket whose event it is handling. *)
Lemma never_echoed clk sid e s s' out :
  audience_of e = Some Others →
  in_room s sid (KStr sid) →
  handle clk sid e s = Done s' out →
  ¬ delivered out (event_name e) sid.
Proof.
  intros Ha Hown%elem_of_members H (m & Hm & Hev & Hx).
  destruct e; try discriminate Ha; simpl in H, Hev;
    unfold on_video_action, on_offer, on_answer, on_ice_candidate, on_signal,
      log_then_return in H;
    handler_cases H; injection H as <- <-;
    repeat (apply elem_of_cons in Hm as [-> | Hm]);
    try (by apply elem_of_nil in Hm);
    try discriminate Hev;
    by apply sender_not_in_socket_to in Hx.
Qed.

(** ** Disconnect *)

(** C8: when nothing was recorded on the socket (it never joined a room),
    its disconnect emits nothing, neither a broadcast nor an error, and
    leaves the three room maps as they were. *)
Theorem C8_disconnect_without_join sid s :
  socket_data s sid = (JUndefined, JUndefined) →
  ∃ s',
    on_disconnect sid s = Done s' [] ∧
    rooms s' = rooms s ∧
    roomVideoStates s' = roomVideoStates s ∧
    roomUsers s' = roomUsers s.
Proof.
  intros Hdata. unfold on_disconnect. rewrite Hdata. simpl. eauto.
Qed.

(** An instance: socket "c" connects next to room "r1" and disconnects. *)
Lemma C8_disconnect_without_join_witness :
  let s := after (two_in_r1 ++ [mkInput (at_time 500) "c" Connection]) in
  socket_data s "c" = (JUndefined, JUndefined) ∧
  ∃ s',
    on_disconnect "c" s = Done s' [] ∧
    rooms s' = rooms s ∧
    roomVideoStates s' = roomVideoStates s ∧
    roomUsers s' = roomUsers s.
Proof.
  intros s. split; [vm_compute; reflexivity|].
  apply (C8_disconnect_without_join "c" s). vm_compute; reflexivity.
Defined.

(** ** Runs *)

(** Induction over a run, from any starting state. *)
Lemma run_invariant (P : State → Prop) :
  (∀ i s s' out, step i s = Done s' out → P s → P s') →
  ∀ tr s s' out, run tr s = Some (s', out) → P s → P s'.
Proof.
  intros Hstep tr. induction tr as [|i tr IH]; simpl; intros s s' out Hrun HP.
  - by injection Hrun as <- _.
  - destruct (step i s) as [s1 out1|] eqn:E; [|done].
    destruct (run tr s1) as [[s2 out2]|] eqn:E'; [|done].
    injection Hrun as <- _. eapply IH; [done|]. by eapply Hstep.
Qed.

(** ** The three maps go together *)

Lemma dom_ensure {V} (m : gmap mapkey V) k v :
  dom (if has m k then m else <[k := v]> m) = {[k]} ∪ dom m.
Proof.
  destruct (has m k) eqn:E.
  - apply has_true, elem_of_dom in E.
    symmetry. by apply subseteq_union_1_L, singleton_subseteq_l.
  - apply dom_insert_L.
Qed.

Lemma initializeRoom_matching clk roomId s :
  matching s → matching (initializeRoom clk roomId s).
Proof.
  intros [H1 H2]. unfold matching.
  rewrite initializeRoom_rooms, initializeRoom_roomVideoStates,
    initializeRoom_roomUsers, !dom_ensure.
  by rewrite H1, H2.
Qed.

Lemma dom_insert_present {V} (m : gmap mapkey V) k v :
  is_Some (m !! k) → dom (<[k := v]> m) = dom m.
Proof.
  intros Hk%elem_of_dom. rewrite dom_insert_L.
  by apply subseteq_union_1_L, singleton_subseteq_l.
Qed.

(** *** What a handler does to the state *)

Lemma remove_user_state sid roomId userName us s :
  (remove_user sid roomId userName us s).1 = removed sid (key_of roomId) us s.
Proof.
  unfold remove_user, removed. by destruct (tbl_delete sid us).
Qed.

Lemma handle_effect clk sid e s s' out :
  handle clk sid e s = Done s' out → effect clk sid s e s'.
Proof.
  intros H.
  destruct e; simpl in H;
    unfold on_connection, on_join_room, on_video_load, on_video_action,
      on_chat_message, on_offer, on_answer, on_ice_candidate, on_signal,
      on_leave_room, on_disconnect, log_then_return in H;
    handler_cases H; injection H as <- <-;
    repeat match goal with
           | E : remove_user _ _ _ _ _ = (_, _) |- _ =>
               apply (f_equal fst) in E; rewrite remove_user_state in E;
               simpl in E; subst
           | E : negb _ = false |- _ => apply negb_false_iff in E
           | E : _ || _ = false |- _ => apply orb_false_elim in E as [??]
           | E : _ && _ = true |- _ => apply andb_prop in E as [??]
           end;
    first [ apply eff_same
          | by apply eff_connection
          | by apply eff_join
          | by apply eff_load
          | by eapply eff_action
          | by apply eff_leave
          | by apply eff_leave_unknown
          | by eapply eff_disconnect
          | apply eff_disconnect_only ].
Qed.

(** Case analysis on an [effect], with fixed names. *)
Ltac effect_cases Heff :=
  destruct Heff as
    [ e
    |
    | data us roomId user s1 Hroom Huser Hus
    | data Hvalid
    | data cs Hvalid Hcs Hdeb
    | data us Hus
    | data Hus
    | roomId user us Hdata Hroom Huser Hus
    | ].

Lemma step_effect i s s' out :
  step i s = Done s' out → effect (in_clock i) (in_socket i) s (in_event i) s'.
Proof.
  unfold step. intros H.
  destruct (in_event i) eqn:Ee, (sockets s !! in_socket i) eqn:Es;
    try (injection H as <- <-; apply eff_same);
    by eapply handle_effect.
Qed.

Lemma removed_matching sid k us s :
  roomUsers s !! k = Some us → matching s → matching (removed sid k us s).
Proof.
  intros Hus [H1 H2]. unfold removed, matching.
  destruct (tbl_delete sid us); simpl.
  - rewrite !dom_delete_L, dom_insert_present by eauto. by rewrite H1, H2.
  - by rewrite dom_insert_present by eauto.
Qed.

Lemma effect_matching clk sid s e s' :
  effect clk sid s e s' → matching s → matching s'.
Proof.
  intros Heff Hm. effect_cases Heff; try done.
  - pose proof (initializeRoom_matching clk roomId s Hm) as [H1 H2].
    unfold matching. simpl. fold s1. by rewrite dom_insert_present by eauto.
  - pose proof (initializeRoom_matching clk (get_prop data "roomId") s Hm) as [H1 H2].
    unfold matching. simpl.
    by rewrite dom_insert_present by apply initializeRoom_videoState_is_Some.
  - destruct Hm as [H1 H2]. unfold matching. simpl.
    by rewrite dom_insert_present by eauto.
  - by apply (removed_matching sid (room_of data) us) in Hm.
  - by apply (removed_matching sid (key_of roomId) us (set_sockets (delete sid) s)) in Hm.
Qed.

Lemma reaches_matching tr s : reaches tr s → matching s.
Proof.
  intros [out Hrun]. eapply (run_invariant matching); [|done|done].
  intros i s1 s2 out' Hstep. eapply effect_matching, step_effect, Hstep.
Qed.

Lemma matching_lookup s k :
  matching s →
  (is_Some (rooms s !! k) ↔ is_Some (roomVideoStates s !! k)) ∧
  (is_Some (roomVideoStates s !! k) ↔ is_Some (roomUsers s !! k)).
Proof. intros [H1 H2]. rewrite <- !elem_of_dom. by rewrite H1, H2. Qed.

(** *** Where user-map entries come from *)

Lemma lookup_removed sid k us s k' :
  roomUsers (removed sid k us s) !! k' =
    if decide (k = k') then
      match tbl_delete sid us with
      | [] => None
      | us' => Some us'
      end
    else roomUsers s !! k'.
Proof.
  unfold removed. destruct (tbl_delete sid us) eqn:E; simpl; case_decide; subst.
  - by rewrite lookup_delete_eq.
  - by rewrite lookup_delete_ne, lookup_insert_ne.
  - by rewrite lookup_insert_eq.
  - by rewrite lookup_insert_ne.
Qed.

Lemma lookup_initializeRoom_roomUsers clk roomId s k :
  roomUsers (initializeRoom clk roomId s) !! k =
    match roomUsers s !! k with
    | Some us => Some us
    | None => if decide (key_of roomId = k) then Some [] else None
    end.
Proof. by rewrite initializeRoom_roomUsers, lookup_ensure. Qed.

Lemma effect_in_presence clk sid s e s' x k :
  effect clk sid s e s' → in_presence s' x k →
  in_presence s x k ∨ (sid = x ∧ ∃ data, e = JoinRoom data ∧ room_of data = k).
Proof.
  unfold in_presence, presence.
  intros Heff. effect_cases Heff; simpl; try (by left).
  - (* join-room *)
    destruct (decide (room_of data = k)) as [<-|Hne].
    + rewrite lookup_insert_eq. simpl.
      destruct (decide (sid = x)) as [->|Hx]; [right; eauto|].
      rewrite tbl_get_set_ne by done. intros Hin. left.
      subst s1. rewrite lookup_initializeRoom_roomUsers in Hus.
      destruct (roomUsers s !! room_of data); [by injection Hus as ->|].
      case_decide; [|done]. injection Hus as <-. by destruct Hin.
    + rewrite lookup_insert_ne by done. subst s1.
      rewrite lookup_initializeRoom_roomUsers.
      destruct (roomUsers s !! k); [by left|].
      case_decide; simpl; intros []; done.
  - (* video-load *)
    rewrite lookup_initializeRoom_roomUsers.
    destruct (roomUsers s !! k); [by left|].
    case_decide; simpl; intros []; done.
  - (* leave-room *)
    rewrite lookup_removed. case_decide; [subst|by left].
    rewrite Hus. simpl. intros Hin. left.
    destruct (tbl_delete sid us) eqn:E; [by destruct Hin|].
    rewrite <- E in Hin. destruct Hin as [u Hu].
    eapply mk_is_Some, tbl_get_delete_Some, Hu.
  - (* disconnect *)
    rewrite lookup_removed. simpl. case_decide; [subst|by left].
    rewrite Hus. simpl. intros Hin. left.
    destruct (tbl_delete sid us) eqn:E; [by destruct Hin|].
    rewrite <- E in Hin. destruct Hin as [u Hu].
    eapply mk_is_Some, tbl_get_delete_Some, Hu.
Qed.

Lemma effect_empty_presence clk sid s e s' k :
  effect clk sid s e s' → roomUsers s' !! k = Some [] →
  roomUsers s !! k = Some [] ∨ ∃ data, e = VideoLoad data ∧ room_of data = k.
Proof.
  intros Heff. effect_cases Heff; simpl; try (by left).
  - (* join-room *)
    destruct (decide (room_of data = k)) as [<-|Hne].
    + rewrite lookup_insert_eq. intros [=Hnil]. by apply tbl_set_not_nil in Hnil.
    + rewrite lookup_insert_ne by done. subst s1.
      rewrite lookup_initializeRoom_roomUsers.
      destruct (roomUsers s !! k); [by left|]. by case_decide.
  - (* video-load *)
    rewrite lookup_initializeRoom_roomUsers.
    destruct (roomUsers s !! k); [by left|].
    case_decide; [|done]. right; eauto.
  - rewrite lookup_removed. case_decide; [|by left].
    by destruct (tbl_delete sid us).
  - rewrite lookup_removed. simpl. case_decide; [|by left].
    by destruct (tbl_delete sid us).
Qed.

Lemma roomUsers_initial k : roomUsers initial !! k = None.
Proof. apply lookup_empty. Qed.

Lemma run_in_presence tr s0 s out x k :
  run tr s0 = Some (s, out) → in_presence s x k →
  in_presence s0 x k ∨ ∃ i, i ∈ tr ∧ joins x k i.
Proof.
  revert s0 out. induction tr as [|i tr IH]; simpl; intros s0 out Hrun Hin.
  - injection Hrun as <- _. by left.
  - destruct (step i s0) as [s1 out1|] eqn:E; [|done].
    destruct (run tr s1) as [[s2 out2]|] eqn:E'; [|done].
    injection Hrun as <- _.
    destruct (IH _ _ E' Hin) as [Hin1 | (j & Hj & Hjoin)].
    + apply step_effect in E.
      destruct (effect_in_presence _ _ _ _ _ _ _ E Hin1)
        as [Hin0 | (Hx & data & He & Hk)]; [by left|].
      right. exists i. split; [apply list_elem_of_here|]. split; eauto.
    + right. exists j. split; [by apply list_elem_of_further|done].
Qed.

Lemma run_empty_presence tr s0 s out k :
  run tr s0 = Some (s, out) → roomUsers s !! k = Some [] →
  roomUsers s0 !! k = Some [] ∨ ∃ i, i ∈ tr ∧ loads k i.
Proof.
  revert s0 out. induction tr as [|i tr IH]; simpl; intros s0 out Hrun Hnil.
  - injection Hrun as <- _. by left.
  - destruct (step i s0) as [s1 out1|] eqn:E; [|done].
    destruct (run tr s1) as [[s2 out2]|] eqn:E'; [|done].
    injection Hrun as <- _.
    destruct (IH _ _ E' Hnil) as [Hnil1 | (j & Hj & Hload)].
    + apply step_effect in E.
      destruct (effect_empty_presence _ _ _ _ _ _ E Hnil1) as [Hnil0 | Hload];
        [by left|].
      right. exists i. split; [apply list_elem_of_here|done].
    + right. exists j. split; [by apply list_elem_of_further|done].
Qed.

(** C1, as the handlers have it: at every state the server can reach, the
    room record, the video state and the user map of a room id exist
    together or not at all; and a room that exists with an empty user map
    was named by a video-load (the video-load handler creates the three
    structures of a room nobody is in and adds no user). *)
Theorem C1_created_and_destroyed_together tr s k :
  reaches tr s →
  (is_Some (rooms s !! k) ↔ is_Some (roomVideoStates s !! k)) ∧
  (is_Some (roomVideoStates s !! k) ↔ is_Some (roomUsers s !! k)) ∧
  (presence s k = [] →
   is_Some (rooms s !! k) ∨ is_Some (roomVideoStates s !! k) →
   ∃ i, i ∈ tr ∧ loads k i).
Proof.
  intros Hreach.
  destruct (matching_lookup s k (reaches_matching _ _ Hreach)) as [H1 H2].
  do 2 (split; [done|]). intros Hnil Hex.
  assert (is_Some (roomUsers s !! k)) as [us Hus] by (destruct Hex; tauto).
  unfold presence in Hnil. rewrite Hus in Hnil. simpl in Hnil. subst us.
  destruct Hreach as [out Hrun].
  destruct (run_empty_presence _ _ _ _ _ Hrun Hus) as [Hinit|]; [|done].
  by rewrite roomUsers_initial in Hinit.
Qed.

(** An instance: the run that loads a video into the unjoined room "r9". *)
Lemma C1_created_and_destroyed_together_witness :
  let s := after load_into_empty_room in
  let k := KStr "r9" in
  (is_Some (rooms s !! k) ↔ is_Some (roomVideoStates s !! k)) ∧
  (is_Some (roomVideoStates s !! k) ↔ is_Some (roomUsers s !! k)) ∧
  (presence s k = [] →
   is_Some (rooms s !! k) ∨ is_Some (roomVideoStates s !! k) →
   ∃ i, i ∈ load_into_empty_room ∧ loads k i).
Proof.
  intros s k.
  apply (C1_created_and_destroyed_together load_into_empty_room s k).
  apply reaches_after. vm_compute. eauto.
Defined.

(** C1 as the specification words it fails: after a single video-load for
    room "r9", which nobody has joined, the room record and the video state
    exist and the user map of the room has no entry. *)
Lemma C1_counterexample :
  let s := after load_into_empty_room in
  reaches load_into_empty_room s ∧
  length (presence s (KStr "r9")) = 0%nat ∧
  is_Some (rooms s !! KStr "r9") ∧
  is_Some (roomVideoStates s !! KStr "r9").
Proof.
  intros s. split; [apply reaches_after; vm_compute; eauto|].
  repeat split; vm_compute; eauto.
Qed.

(** Joining a room takes no socket out of any user map. *)
Lemma join_keeps_presence clk sid d s s' out x k :
  on_join_room clk sid d s = Done s' out →
  in_presence s x k → in_presence s' x k.
Proof.
  intros H Hin. apply (handle_effect clk sid (JoinRoom d)) in H.
  remember (JoinRoom d) as ev eqn:Hev.
  effect_cases H; try discriminate Hev; [done|]. injection Hev as ->.
  unfold in_presence, presence in *. simpl. subst s1.
  rewrite lookup_initializeRoom_roomUsers in Hus.
  destruct (decide (room_of d = k)) as [<-|Hne].
  - rewrite lookup_insert_eq. simpl.
    destruct (decide (sid = x)) as [->|Hx]; [by rewrite tbl_get_set_eq|].
    rewrite tbl_get_set_ne by done.
    destruct (roomUsers s !! room_of d); [by injection Hus as ->|].
    by destruct Hin.
  - rewrite lookup_insert_ne by done. rewrite lookup_initializeRoom_roomUsers.
    destruct (roomUsers s !! k); [done|]. by destruct Hin.
Qed.

(** C5, as the handlers have it: a socket has an entry in the user map of a
    room only if it sent a join-room naming that room; so a socket whose
    join-room events all name one room is in at most one user map.  (A
    join-room for another room leaves the earlier entries in place.) *)
Theorem C5_presence_comes_from_join tr s x k :
  reaches tr s → in_presence s x k →
  (∃ i, i ∈ tr ∧ joins x k i) ∧
  ∀ k',
    (∀ i1 i2 k1 k2, i1 ∈ tr → i2 ∈ tr → joins x k1 i1 → joins x k2 i2 → k1 = k2) →
    in_presence s x k' → k' = k.
Proof.
  intros [out Hrun] Hin.
  assert (∀ k0, in_presence s x k0 → ∃ i, i ∈ tr ∧ joins x k0 i) as Hfrom.
  { intros k0 Hin0.
    destruct (run_in_presence _ _ _ _ _ _ Hrun Hin0) as [Hinit|]; [|done].
    unfold in_presence, presence in Hinit.
    rewrite roomUsers_initial in Hinit. by destruct Hinit. }
  split; [by apply Hfrom|].
  intros k' Hone Hin'.
  destruct (Hfrom k Hin) as (i & Hi & Hjoin).
  destruct (Hfrom k' Hin') as (i' & Hi' & Hjoin').
  exact (Hone i' i k' k Hi' Hi Hjoin' Hjoin).
Qed.

(** An instance: socket "b" in room "r1". *)
Lemma C5_presence_comes_from_join_witness :
  let s := after two_in_r1 in
  in_presence s "b" (KStr "r1") ∧
  (∃ i, i ∈ two_in_r1 ∧ joins "b" (KStr "r1") i) ∧
  ∀ k',
    (∀ i1 i2 k1 k2, i1 ∈ two_in_r1 → i2 ∈ two_in_r1 →
                    joins "b" k1 i1 → joins "b" k2 i2 → k1 = k2) →
    in_presence s "b" k' → k' = KStr "r1".
Proof.
  intros s. split; [vm_compute; eauto|].
  apply (C5_presence_comes_from_join two_in_r1 s "b" (KStr "r1")).
  - apply reaches_after. vm_compute. eauto.
  - vm_compute. eauto.
Defined.

(** C5 as the specification words it fails: socket "a" joins room "A" and
    then room "B", and is in the user maps of both. *)
Lemma C5_counterexample :
  let tr := [ mkInput (at_time 100) "a" Connection;
              mkInput (at_time 200) "a" (JoinRoom (join 3 alice "A"));
              mkInput (at_time 300) "a" (JoinRoom (join 4 alice "B")) ] in
  let s := after tr in
  reaches tr s ∧
  KStr "A" ≠ KStr "B" ∧
  in_presence s "a" (KStr "A") ∧ in_presence s "a" (KStr "B").
Proof.
  intros tr s. split; [apply reaches_after; vm_compute; eauto|].
  split; [discriminate|]. split; vm_compute; eauto.
Qed.

(** ** What is recorded on a socket *)

Lemma removed_sockets sid k us s : sockets (removed sid k us s) = sockets s.
Proof. unfold removed. by destruct (tbl_delete sid us). Qed.

Lemma effect_socket_data clk sid s e s' x :
  effect clk sid s e s' →
  socket_data s' x = socket_data s x ∨
  (sid = x ∧ ∃ data, e = JoinRoom data) ∨
  socket_data s' x = (JUndefined, JUndefined).
Proof.
  intros Heff. unfold socket_data.
  effect_cases Heff; simpl; try (by left);
    rewrite ?removed_sockets, ?initializeRoom_sockets; simpl;
    destruct (decide (sid = x)) as [->|Hx];
    rewrite ?lookup_insert_eq, ?lookup_delete_eq; eauto;
    rewrite ?lookup_insert_ne, ?lookup_delete_ne by done; try (by left).
  - subst s1. rewrite !lookup_alter_ne, initializeRoom_sockets by done. by left.
  - rewrite lookup_alter_eq. left. by destruct (sockets s !! x).
  - rewrite lookup_alter_ne by done. by left.
  - rewrite lookup_alter_eq. left. by destruct (sockets s !! x).
  - rewrite lookup_alter_ne by done. by left.
Qed.

Lemma run_socket_data tr s0 s out x :
  run tr s0 = Some (s, out) → never_joins x tr →
  socket_data s0 x = (JUndefined, JUndefined) →
  socket_data s x = (JUndefined, JUndefined).
Proof.
  revert s0 out. induction tr as [|i tr IH]; simpl; intros s0 out Hrun Hnever H0.
  - by injection Hrun as <- _.
  - destruct (step i s0) as [s1 out1|] eqn:E; [|done].
    destruct (run tr s1) as [[s2 out2]|] eqn:E'; [|done].
    injection Hrun as <- _. eapply IH; [done| |].
    + intros j Hj. apply Hnever. by apply list_elem_of_further.
    + apply step_effect in E.
      destruct (effect_socket_data _ _ _ _ _ x E) as [-> | [(Hx & d & Hd) | ->]];
        [done| |done].
      by destruct (Hnever i (list_elem_of_here _ _) Hx d).
Qed.

(** Nothing is recorded on a socket that never sent a join-room. *)
Lemma never_joined_nothing_recorded tr s x :
  reaches tr s → never_joins x tr →
  socket_data s x = (JUndefined, JUndefined).
Proof.
  intros [out Hrun] Hnever. eapply run_socket_data; [done..|].
  unfold socket_data, initial. simpl. by rewrite lookup_empty.
Qed.

(** ** User maps and socket.io rooms *)

Lemma sio_names_primitive room :
  primitive (key_of room) → sio_names room = [key_of room].
Proof. destruct room; try done. intros Hp. by destruct (Hp ref). Qed.

Lemma presence_removed sid k us s : presence (removed sid k us s) k = tbl_delete sid us.
Proof.
  unfold presence. rewrite lookup_removed. case_decide; [|done].
  by destruct (tbl_delete sid us).
Qed.

Lemma not_in_presence_removed sid k us s : ¬ in_presence (removed sid k us s) sid k.
Proof.
  unfold in_presence. rewrite presence_removed, tbl_get_delete_eq. by intros [].
Qed.

Lemma effect_presence_in_rooms clk sid s e s' :
  effect clk sid s e s' → e ≠ Connection →
  presence_in_rooms s → presence_in_rooms s'.
Proof.
  intros Heff Hne HJ x k sk' Hprim Hin Hsk'.
  pose proof (effect_in_presence _ _ _ _ _ x k Heff Hin) as Hwas.
  pose proof (λ k0 us, not_in_presence_removed sid k0 us s) as Hgone.
  effect_cases Heff; simpl in Hsk'; try done.
  - by eapply HJ.
  - (* join-room *)
    subst s1. rewrite initializeRoom_sockets in Hsk'.
    destruct (decide (sid = x)) as [->|Hx].
    + rewrite !lookup_alter_eq in Hsk'.
      destruct (sockets s !! x) as [sk|] eqn:Hsk; [|done].
      injection Hsk' as <-. simpl. apply elem_of_union.
      destruct Hwas as [Hwas | (_ & d & [= <-] & <-)].
      * right. by eapply HJ.
      * left. rewrite sio_names_primitive by done. set_solver.
    + rewrite !lookup_alter_ne in Hsk' by done.
      destruct Hwas as [Hwas | (? & _)]; [by eapply HJ|done].
  - (* video-load *)
    rewrite initializeRoom_sockets in Hsk'.
    destruct Hwas as [Hwas | (_ & d & [=] & _)]. by eapply HJ.
  - (* video-action *)
    destruct Hwas as [Hwas | (_ & d & [=] & _)]. by eapply HJ.
  - (* leave-room *)
    rewrite removed_sockets in Hsk'.
    destruct Hwas as [Hwas | (_ & d & [=] & _)].
    destruct (decide (sid = x)) as [->|Hx].
    + rewrite lookup_alter_eq in Hsk'.
      destruct (sockets s !! x) as [sk|] eqn:Hsk; [|done].
      injection Hsk' as <-. simpl. apply elem_of_difference. split.
      * by eapply HJ.
      * intros ->%elem_of_singleton. by apply (Hgone (room_of data) us).
    + rewrite lookup_alter_ne in Hsk' by done. by eapply HJ.
  - (* leave-room for a room without a user map *)
    destruct Hwas as [Hwas | (_ & d & [=] & _)].
    destruct (decide (sid = x)) as [->|Hx].
    + rewrite lookup_alter_eq in Hsk'.
      destruct (sockets s !! x) as [sk|] eqn:Hsk; [|done].
      injection Hsk' as <-. simpl. apply elem_of_difference. split.
      * by eapply HJ.
      * intros ->%elem_of_singleton.
        unfold in_presence, presence in Hwas. unfold room_of in Hus.
        rewrite Hus in Hwas.
        by destruct Hwas.
    + rewrite lookup_alter_ne in Hsk' by done. by eapply HJ.
  - (* disconnect *)
    rewrite removed_sockets in Hsk'. simpl in Hsk'.
    destruct Hwas as [Hwas | (_ & d & [=] & _)].
    apply lookup_delete_Some in Hsk' as [_ Hsk]. by eapply HJ.
  - destruct Hwas as [Hwas | (_ & d & [=] & _)].
    apply lookup_delete_Some in Hsk' as [_ Hsk]. by eapply HJ.
Qed.

Lemma step_presence_in_rooms used i s s' out :
  step i s = Done s' out →
  (in_event i = Connection → in_socket i ∉ used) →
  presence_known used s → presence_in_rooms s →
  presence_known ({[in_socket i]} ∪ used) s' ∧ presence_in_rooms s'.
Proof.
  intros Hstep Hfresh Hknown HJ. split.
  - intros x k Hin. apply step_effect in Hstep.
    destruct (effect_in_presence _ _ _ _ _ x k Hstep Hin) as [Hwas | [<- _]].
    + apply elem_of_union_r. by eapply Hknown.
    + by apply elem_of_union_l, elem_of_singleton.
  - unfold step in Hstep.
    destruct (in_event i) eqn:Ee, (sockets s !! in_socket i) eqn:Es;
      try (by injection Hstep as <- <-);
      try (apply handle_effect in Hstep;
           by apply (effect_presence_in_rooms _ _ _ _ _ Hstep)).
    (* a new connection *)
    injection Hstep as <- <-. intros x k sk Hprim Hin Hsk. simpl in Hsk.
    destruct (decide (in_socket i = x)) as [<-|Hx].
    + destruct (Hfresh eq_refl). by eapply Hknown.
    + rewrite lookup_insert_ne in Hsk by done. by eapply HJ.
Qed.

Lemma run_presence_in_rooms tr used s0 s out :
  run tr s0 = Some (s, out) → fresh_ids used tr →
  presence_known used s0 → presence_in_rooms s0 →
  presence_in_rooms s.
Proof.
  revert used s0 out.
  induction tr as [|i tr IH]; simpl; intros used s0 out Hrun Hfresh Hknown HJ.
  - by injection Hrun as <- _.
  - destruct (step i s0) as [s1 out1|] eqn:E; [|done].
    destruct (run tr s1) as [[s2 out2]|] eqn:E'; [|done].
    injection Hrun as <- _. destruct Hfresh as [Hi Hfresh].
    destruct (step_presence_in_rooms used _ _ _ _ E Hi Hknown HJ) as [Hknown1 HJ1].
    by eapply IH.
Qed.

(** In a run with fresh connection ids, every connected socket listed in the
    user map of a room (with a primitive id) is a member of the room as
    socket.io sees it: the audiences of the router cover the connected
    users of the room. *)
Lemma connected_presence_in_members tr s x k :
  fresh_ids ∅ tr → reaches tr s → primitive k →
  in_presence s x k → is_Some (sockets s !! x) →
  x ∈ members s k.
Proof.
  intros Hfresh [out Hrun] Hprim Hin [sk Hsk].
  apply elem_of_members. exists sk. split; [done|].
  assert (presence_in_rooms s) as HJ; [|by eapply HJ].
  apply (run_presence_in_rooms tr ∅ initial s out Hrun Hfresh).
  - intros y k0. unfold in_presence, presence.
    rewrite roomUsers_initial. by intros [].
  - intros y k0 sk0 _. unfold in_presence, presence.
    rewrite roomUsers_initial. by intros [].
Qed.

(** With fresh connection ids, a broadcast to a room with a primitive id
    addresses every connected socket that is in the user map of the room. *)
Lemma room_users_are_addressed tr s room x :
  fresh_ids ∅ tr → reaches tr s → primitive (key_of room) →
  in_presence s x (key_of room) → is_Some (sockets s !! x) →
  x ∈ io_to s room.
Proof.
  intros Hfresh Hreach Hprim Hin Hconn.
  rewrite io_to_one_room.
  - by eapply connected_presence_in_members.
  - intros r items ->. by destruct (Hprim r).
Qed.

(** * Further properties of the handlers *)

(** ** Errors *)



(** A video-action for a room that has no video state is answered with the
    "Room not found" error and creates nothing: unlike video-load, the
    handler does not call [initializeRoom]. *)
Theorem video_action_needs_a_room clk sid data s :
  valid_video_action data →
  roomVideoStates s !! room_of data = None →
  on_video_action clk sid data s = Done s [error sid "Room not found"].
Proof.
  intros [Hroom Huser] Hnone. unfold on_video_action.
  rewrite (truthy_destructurable _ _ Hroom), Hroom, Huser. simpl.
  unfold room_of in Hnone. by rewrite Hnone.
Qed.

Lemma video_action_needs_a_room_witness :
  let s := after two_in_r1 in
  let d := action 5 "r2" "play" (JInt 1) "u1" in
  on_video_action (at_time 1000) "a" d s = Done s [error "a" "Room not found"].
Proof.
  intros s d. apply (video_action_needs_a_room (at_time 1000) "a" d s).
  - split; reflexivity.
  - vm_compute; reflexivity.
Defined.

(** ** The debounce window *)

(** The window, exactly: a video-action that passes the field check, for a
    room with a video state, is dropped without a trace if and only if the
    state was last updated at a non-zero clock reading less than 300ms
    before.  At 300ms and later, and for a room that was never updated, the
    action gets through. *)
Theorem dropped_iff_within_window clk sid data s cs :
  valid_video_action data →
  roomVideoStates s !! room_of data = Some cs →
  on_video_action clk sid data s = Done s [] ↔
  ∃ t, lastUpdated cs = Some t ∧ t ≠ 0%Z ∧ (date_now1 clk - t < 300)%Z.
Proof.
  intros Hv Hcs. split.
  - intros Hdrop. destruct (debounced (date_now1 clk) cs) eqn:Hdeb.
    + unfold debounced in Hdeb. destruct (lastUpdated cs) as [t|]; [|done].
      apply andb_prop in Hdeb as [Hnz Hlt]. exists t. split; [done|].
      split; [by apply Z.eqb_neq, negb_true_iff|by apply Z.ltb_lt].
    + rewrite (on_video_action_accepted _ _ _ _ cs) in Hdrop by done.
      unfold log_then_return in Hdrop.
      by destruct (forallb stringifiable (action_logged data)).
  - intros (t & Hlu & Hnz & Hlt).
    eapply on_video_action_debounced; [done..|].
    by apply (debounced_after_stamp t).
Qed.

(** An instance: 299ms after an update the action is dropped. *)
Lemma dropped_iff_within_window_witness :
  let s := after (two_in_r1 ++
             [mkInput (at_time 1000) "a" (VideoAction (action 5 "r1" "play" (JInt 7) "u1"))]) in
  let d := action 6 "r1" "pause" (JInt 9) "u2" in
  on_video_action (at_time 1299) "b" d s = Done s [] ↔
  ∃ t, Some 1000%Z = Some t ∧ t ≠ 0%Z ∧ (1299 - t < 300)%Z.
Proof.
  intros s d.
  apply (dropped_iff_within_window (at_time 1299) "b" d s
           (mkVideoState JNull JNull JNull (JInt 7) true (Some 1000%Z) (JStr "u1"))).
  - split; reflexivity.
  - vm_compute; reflexivity.
Defined.

(** At exactly 300ms after the last update an action gets through. *)
Theorem accepted_at_300ms clk sid data s cs t :
  valid_video_action data →
  roomVideoStates s !! room_of data = Some cs →
  lastUpdated cs = Some t → (300 ≤ date_now1 clk - t)%Z →
  ends_in (on_video_action clk sid data s)
    (set_roomVideoStates (insert (room_of data) (acted clk data cs)) s)
    [action_broadcast clk sid data s].
Proof.
  intros Hv Hcs Hlu Hge. apply on_video_action_ends_in; [done..|].
  unfold debounced. rewrite Hlu.
  apply andb_false_intro2, Z.ltb_ge, Hge.
Qed.

Lemma accepted_at_300ms_witness :
  let s := after (two_in_r1 ++
             [mkInput (at_time 1000) "a" (VideoAction (action 5 "r1" "play" (JInt 7) "u1"))]) in
  let d := action 6 "r1" "pause" (JInt 9) "u2" in
  let cs := mkVideoState JNull JNull JNull (JInt 7) true (Some 1000%Z) (JStr "u1") in
  ends_in (on_video_action (at_time 1300) "b" d s)
    (set_roomVideoStates (insert (room_of d) (acted (at_time 1300) d cs)) s)
    [action_broadcast (at_time 1300) "b" d s].
Proof.
  intros s d cs.
  apply (accepted_at_300ms (at_time 1300) "b" d s cs 1000).
  - split; reflexivity.
  - vm_compute; reflexivity.
  - reflexivity.
  - simpl; lia.
Defined.

(** ** Seek, and what the broadcast forwards *)

(** A seek that gets through stores whatever [time] the event carries, a
    missing one ([undefined]) and 0 included, and leaves the playing flag
    alone; the state is left so whether the handler returns or its final
    log line raises. *)
Theorem seek_stores_time_as_given clk sid data s cs :
  valid_video_action data →
  get_prop data "action" = JStr "seek" →
  roomVideoStates s !! room_of data = Some cs →
  debounced (date_now1 clk) cs = false →
  ∃ s' out cs',
    ends_in (on_video_action clk sid data s) s' out ∧
    roomVideoStates s' !! room_of data = Some cs' ∧
    currentTime cs' = get_prop data "time" ∧
    isPlaying cs' = isPlaying cs.
Proof.
  intros Hv Hact Hcs Hdeb. eexists _, _, _. split.
  { by apply on_video_action_ends_in. }
  split; [apply lookup_insert_eq|].
  unfold acted. by rewrite Hact.
Qed.

(** An instance: a seek without [time] in a room that is playing at 7. *)
Lemma seek_stores_time_as_given_witness :
  let s := after (two_in_r1 ++
             [mkInput (at_time 1000) "a" (VideoAction (action 5 "r1" "play" (JInt 7) "u1"))]) in
  let d := JObj 6 [("roomId", JStr "r1"); ("action", JStr "seek"); ("userId", JStr "u2")] in
  ∃ s' out cs',
    ends_in (on_video_action (at_time 2000) "b" d s) s' out ∧
    roomVideoStates s' !! room_of d = Some cs' ∧
    currentTime cs' = JUndefined ∧
    isPlaying cs' = true.
Proof.
  intros s d.
  apply (seek_stores_time_as_given (at_time 2000) "b" d s
           (mkVideoState JNull JNull JNull (JInt 7) true (Some 1000%Z) (JStr "u1"))).
  - split; reflexivity.
  - reflexivity.
  - vm_compute; reflexivity.
  - reflexivity.
Defined.

Lemma tbl_get_spread_set data p x :
  p ≠ "timestamp" →
  get_prop (obj (tbl_set "timestamp" x (spread data))) p = get_prop data p.
Proof.
  intros Hp. unfold obj, get_prop at 1.
  rewrite tbl_get_set_ne by done.
  destruct data; simpl; try done.
Qed.

(** The video-action broadcast forwards every property of the event as the
    client sent it, the known ones and any other; only [timestamp] is the
    server's.  The broadcast is sent before the final log line, so it goes
    out whether or not that line raises. *)
Theorem video_action_forwards_the_event clk sid data s cs p :
  valid_video_action data →
  roomVideoStates s !! room_of data = Some cs →
  debounced (date_now1 clk) cs = false →
  p ≠ "timestamp" →
  ∃ s' m,
    ends_in (on_video_action clk sid data s) s' [m] ∧
    event m = "video-action" ∧
    get_prop (payload m) p = get_prop data p.
Proof.
  intros Hv Hcs Hdeb Hp. eexists _, _. split.
  { by apply on_video_action_ends_in. }
  split; [done|].
  by apply tbl_get_spread_set.
Qed.

Lemma video_action_forwards_the_event_witness :
  let s := after two_in_r1 in
  let d := JObj 5 [("roomId", JStr "r1"); ("action", JStr "seek"); ("time", JInt 42);
                   ("userId", JStr "u1"); ("note", JStr "skip the intro")] in
  ∃ s' m,
    ends_in (on_video_action (at_time 1000) "a" d s) s' [m] ∧
    event m = "video-action" ∧
    get_prop (payload m) "note" = JStr "skip the intro".
Proof.
  intros s d.
  apply (video_action_forwards_the_event (at_time 1000) "a" d s
           (mkVideoState JNull JNull JNull (JInt 0) false None JNull) "note").
  - split; reflexivity.
  - vm_compute; reflexivity.
  - reflexivity.
  - discriminate.
Defined.

(** ** Joining *)

Section TableSize.
Context {A : Type}.
Implicit Types (t : list (string * A)) (k : string).

Lemma tbl_set_length k x t :
  length (tbl_set k x t) =
    match tbl_get k t with
    | Some _ => length t
    | None => S (length t)
    end.
Proof.
  induction t as [|[k' v] t IH]; csimpl; [done|].
  destruct (String.eqb k k'); csimpl; [done|].
  rewrite IH. by destruct (tbl_get k t).
Qed.

Lemma tbl_get_None_keys k t : tbl_get k t = None ↔ k ∉ t.*1.
Proof.
  induction t as [|[k' v] t IH]; csimpl.
  - split; [intros _; apply not_elem_of_nil|done].
  - rewrite not_elem_of_cons. destruct (String.eqb_spec k k') as [->|Hne].
    + split; [done|]. by intros [? _].
    + rewrite IH. tauto.
Qed.

Lemma tbl_set_keys k x t :
  (tbl_set k x t).*1 =
    match tbl_get k t with
    | Some _ => t.*1
    | None => (t.*1 ++ [k])%list
    end.
Proof.
  induction t as [|[k' v] t IH]; csimpl; [done|].
  destruct (String.eqb_spec k k') as [->|Hne]; csimpl; [done|].
  rewrite IH. by destruct (tbl_get k t).
Qed.

Lemma tbl_set_NoDup k x t : NoDup t.*1 → NoDup (tbl_set k x t).*1.
Proof.
  intros Hnd. rewrite tbl_set_keys.
  destruct (tbl_get k t) eqn:E; [done|].
  apply NoDup_app. split; [done|]. split; [|apply NoDup_singleton].
  intros y Hy ->%list_elem_of_singleton. by apply tbl_get_None_keys in E.
Qed.

Lemma tbl_delete_keys_subset k t y : y ∈ (tbl_delete k t).*1 → y ∈ t.*1.
Proof.
  induction t as [|[k' v] t IH]; csimpl; [done|].
  destruct (String.eqb k k'); csimpl.
  - intros Hy. by apply list_elem_of_further, IH.
  - intros [->|Hy]%elem_of_cons; [apply list_elem_of_here|].
    by apply list_elem_of_further, IH.
Qed.

Lemma tbl_delete_NoDup k t : NoDup t.*1 → NoDup (tbl_delete k t).*1.
Proof.
  induction t as [|[k' v] t IH]; csimpl; [done|].
  intros [Hk' Hnd]%NoDup_cons. destruct (String.eqb k k'); csimpl; [by apply IH|].
  apply NoDup_cons. split; [|by apply IH].
  intros Hin. by apply Hk', (tbl_delete_keys_subset k).
Qed.

Lemma tbl_delete_absent k t : tbl_get k t = None → tbl_delete k t = t.
Proof.
  induction t as [|[k' v] t IH]; csimpl; [done|].
  destruct (String.eqb k k'); [done|]. intros Hk. by rewrite IH.
Qed.


End TableSize.

Lemma presence_initializeRoom clk roomId s k :
  presence (initializeRoom clk roomId s) k = presence s k.
Proof.
  unfold presence. rewrite lookup_initializeRoom_roomUsers.
  destruct (roomUsers s !! k); [done|]. by case_decide.
Qed.

Lemma roomUsers_initializeRoom_here clk roomId s :
  roomUsers (initializeRoom clk roomId s) !! key_of roomId
    = Some (presence s (key_of roomId)).
Proof.
  unfold presence. rewrite lookup_initializeRoom_roomUsers.
  destruct (roomUsers s !! key_of roomId); [done|]. by case_decide.
Qed.

Lemma roomVideoStates_initializeRoom_here clk roomId s :
  roomVideoStates (initializeRoom clk roomId s) !! key_of roomId
    = Some (default pristine (roomVideoStates s !! key_of roomId)).
Proof.
  rewrite initializeRoom_roomVideoStates, lookup_ensure.
  destruct (roomVideoStates s !! key_of roomId); [done|]. by case_decide.
Qed.

Lemma on_join_room_valid clk sid data s :
  valid_join data →
  on_join_room clk sid data s
    = log_then_return (join_logged sid data)
        (joined clk sid data s) (join_messages clk sid data s).
Proof.
  intros [Huser Hroom]. unfold on_join_room.
  rewrite (truthy_destructurable _ _ Hroom), Huser, Hroom. simpl.
  rewrite roomUsers_initializeRoom_here, roomVideoStates_initializeRoom_here.
  reflexivity.
Qed.

Lemma on_join_room_ends_in clk sid data s :
  valid_join data →
  ends_in (on_join_room clk sid data s)
    (joined clk sid data s) (join_messages clk sid data s).
Proof.
  intros Hv. rewrite on_join_room_valid by done. apply log_then_return_ends_in.
Qed.

Lemma presence_joined clk sid data s :
  presence (joined clk sid data s) (room_of data)
    = tbl_set sid (joining_user sid data) (presence s (room_of data)).
Proof. unfold presence, joined. simpl. by rewrite lookup_insert_eq. Qed.

(** A join-room that passes the field check sends the joiner a snapshot and
    the sockets now in the room, those in the room named by the joiner's id
    apart, a notice with the same member count and the same member list;
    a joiner that is in the room named by its id gets no notice.  The count
    is the size of the room's user map after the join: one more than before
    for a socket that was not in the map, and the same as before for a
    socket that was (its entry is overwritten in place).  Both messages are
    sent before the final log line, so they go out whether or not that line
    raises. *)
Theorem join_counts_the_room clk sid data s :
  valid_join data →
  ∃ s' m1 m2,
    ends_in (on_join_room clk sid data s) s' [m1; m2] ∧
    event m1 = "room-joined" ∧ recipients m1 = {[sid]} ∧
    event m2 = "user-joined" ∧
    (∀ x, x ∈ recipients m2 ↔
          room_member s' (get_prop data "roomId") x ∧ ¬ in_room s' x (KStr sid)) ∧
    (in_room s' sid (KStr sid) → sid ∉ recipients m2) ∧
    userCount_of m1 = userCount_of m2 ∧ users_of m1 = users_of m2 ∧
    userCount_of m1 = JInt (Z.of_nat (length (presence s' (room_of data)))) ∧
    length (presence s' (room_of data)) =
      match tbl_get sid (presence s (room_of data)) with
      | Some _ => length (presence s (room_of data))
      | None => S (length (presence s (room_of data)))
      end.
Proof.
  intros Hv. eexists _, _, _. split; [by apply on_join_room_ends_in|].
  do 3 (split; [done|]).
  split; [intros x; apply elem_of_socket_to_member|].
  split; [intros Hown%elem_of_members; by apply sender_not_in_socket_to|].
  do 2 (split; [done|]). rewrite presence_joined. split.
  - unfold userCount_of, tbl_values. simpl. by rewrite length_map.
  - apply tbl_set_length.
Qed.

(** An instance: a third socket joins room "r1". *)
Lemma join_counts_the_room_witness :
  let s := after (two_in_r1 ++ [mkInput (at_time 500) "c" Connection]) in
  let d := join 5 (JObj 6 [("name", JStr "Carol")]) "r1" in
  ∃ s' m1 m2,
    ends_in (on_join_room (at_time 600) "c" d s) s' [m1; m2] ∧
    event m1 = "room-joined" ∧ recipients m1 = {["c"]} ∧
    event m2 = "user-joined" ∧
    (∀ x, x ∈ recipients m2 ↔
          room_member s' (get_prop d "roomId") x ∧ ¬ in_room s' x (KStr "c")) ∧
    (in_room s' "c" (KStr "c") → "c" ∉ recipients m2) ∧
    userCount_of m1 = userCount_of m2 ∧ users_of m1 = users_of m2 ∧
    userCount_of m1 = JInt (Z.of_nat (length (presence s' (room_of d)))) ∧
    length (presence s' (room_of d)) =
      match tbl_get "c" (presence s (room_of d)) with
      | Some _ => length (presence s (room_of d))
      | None => S (length (presence s (room_of d)))
      end.
Proof.
  intros s d. apply (join_counts_the_room (at_time 600) "c" d s).
  split; reflexivity.
Defined.

(** A join-room never touches the video state of a room that has one: the
    snapshot the joiner gets is the state as it was, and for a room that did
    not exist it is the pristine state.  The state is left so, and the
    snapshot sent, whether the handler returns or its final log line
    raises. *)
Theorem join_sees_current_video_state clk sid data s :
  valid_join data →
  ∃ s' m1 m2,
    ends_in (on_join_room clk sid data s) s' [m1; m2] ∧
    event m1 = "room-joined" ∧ recipients m1 = {[sid]} ∧
    roomVideoStates s' !! room_of data
      = Some (default pristine (roomVideoStates s !! room_of data)) ∧
    get_prop (payload m1) "currentVideoState"
      = js_of_VideoState (default pristine (roomVideoStates s !! room_of data)).
Proof.
  intros Hv. eexists _, _, _. split; [by apply on_join_room_ends_in|].
  do 2 (split; [done|]).
  split; [|done]. unfold joined. simpl.
  apply roomVideoStates_initializeRoom_here.
Qed.

(** An instance: a socket joins a room that is playing at position 7. *)
Lemma join_sees_current_video_state_witness :
  let s := after (two_in_r1 ++
             [mkInput (at_time 1000) "a" (VideoAction (action 5 "r1" "play" (JInt 7) "u1"));
              mkInput (at_time 1100) "c" Connection]) in
  let d := join 7 (JObj 8 [("name", JStr "Carol")]) "r1" in
  let cs := mkVideoState JNull JNull JNull (JInt 7) true (Some 1000%Z) (JStr "u1") in
  roomVideoStates s !! room_of d = Some cs ∧
  ∃ s' m1 m2,
    ends_in (on_join_room (at_time 1200) "c" d s) s' [m1; m2] ∧
    event m1 = "room-joined" ∧ recipients m1 = {["c"]} ∧
    roomVideoStates s' !! room_of d
      = Some (default pristine (roomVideoStates s !! room_of d)) ∧
    get_prop (payload m1) "currentVideoState"
      = js_of_VideoState (default pristine (roomVideoStates s !! room_of d)).
Proof.
  intros s d cs. split; [vm_compute; reflexivity|].
  apply (join_sees_current_video_state (at_time 1200) "c" d s).
  split; reflexivity.
Defined.

(** ** Invariants of the user maps *)

(** What a handler does to the user map of a room: nothing, or the entry of
    the acting socket is written by a join-room, or it is deleted. *)
Lemma effect_presence clk sid s e s' k :
  effect clk sid s e s' →
  presence s' k = presence s k ∨
  (∃ data, e = JoinRoom data ∧ k = room_of data ∧
           presence s' k = tbl_set sid (joining_user sid data) (presence s k)) ∨
  presence s' k = tbl_delete sid (presence s k).
Proof.
  intros Heff. effect_cases Heff; try (by left).
  - (* join-room *)
    subst s1 roomId user. unfold room_of in Hus.
    rewrite roomUsers_initializeRoom_here in Hus. injection Hus as <-.
    fold (room_of data).
    destruct (decide (room_of data = k)) as [<-|Hne].
    + right; left. exists data. do 2 (split; [done|]).
      unfold presence at 1. simpl. by rewrite lookup_insert_eq.
    + left. unfold presence at 1. simpl. rewrite lookup_insert_ne by done.
      apply presence_initializeRoom.
  - left. apply presence_initializeRoom.
  - destruct (decide (room_of data = k)) as [<-|Hne].
    + right; right. unfold presence at 2. rewrite Hus. apply presence_removed.
    + left. unfold presence. simpl. rewrite lookup_removed. by case_decide.
  - destruct (decide (key_of roomId = k)) as [<-|Hne].
    + right; right. unfold presence at 2. rewrite Hus. apply presence_removed.
    + left. unfold presence. rewrite lookup_removed. by case_decide.
Qed.

(** No socket is listed twice in a room: at every state the server can
    reach, the socket ids of a room's user map are pairwise distinct, so
    [userCount] counts sockets. *)
Theorem one_entry_per_socket tr s k :
  reaches tr s → NoDup (presence s k).*1.
Proof.
  intros [out Hrun]. revert k.
  refine (run_invariant (λ s, ∀ k, NoDup (presence s k).*1) _ tr initial s out Hrun _).
  - intros i s1 s2 out' Hstep IH k. apply step_effect in Hstep.
    destruct (effect_presence _ _ _ _ _ k Hstep)
      as [-> | [(data & _ & _ & ->) | ->]]; [done| |].
    + by apply tbl_set_NoDup.
    + by apply tbl_delete_NoDup.
  - intros k. unfold presence. rewrite roomUsers_initial. apply NoDup_nil_2.
Qed.

(** An instance: socket "a" joins room "r1" twice. *)
Lemma one_entry_per_socket_witness :
  let tr := (two_in_r1 ++
               [mkInput (at_time 500) "a" (JoinRoom (join 5 alice "r1"))])%list in
  NoDup (presence (after tr) (KStr "r1")).*1.
Proof.
  intros tr. apply (one_entry_per_socket tr (after tr) (KStr "r1")).
  apply reaches_after. vm_compute. eauto.
Defined.

(** The [socketId] of a listed user is the server's: at every state the
    server can reach, a user object stored under a socket id carries that
    id as [socketId], whatever [socketId] the client put into its
    join-room. *)
Theorem socketId_is_the_sockets tr s k x u r ps :
  reaches tr s → tbl_get x (presence s k) = Some u → u = JObj r ps →
  get_prop u "socketId" = JStr x.
Proof.
  intros [out Hrun]. revert k x u r ps.
  refine (run_invariant
            (λ s, ∀ k x u r ps, tbl_get x (presence s k) = Some u → u = JObj r ps →
                                get_prop u "socketId" = JStr x) _ tr initial s out Hrun _).
  - intros i s1 s2 out' Hstep IH k x u r ps Hu Hobj. apply step_effect in Hstep.
    destruct (effect_presence _ _ _ _ _ k Hstep)
      as [Heq | [(data & _ & _ & Heq) | Heq]]; rewrite Heq in Hu.
    + by eapply IH.
    + destruct (decide (in_socket i = x)) as [<-|Hx].
      * rewrite tbl_get_set_eq in Hu. injection Hu as <-.
        unfold joining_user in *. destruct (get_prop data "user"); try done.
        simpl. by rewrite tbl_get_set_eq.
      * rewrite tbl_get_set_ne in Hu by done. by eapply IH.
    + apply tbl_get_delete_Some in Hu. by eapply IH.
  - intros k x u r ps. unfold presence. by rewrite roomUsers_initial.
Qed.

(** An instance: a join-room whose user claims the socket id of "a". *)
Lemma socketId_is_the_sockets_witness :
  let mallory := JObj 5 [("name", JStr "Mallory"); ("socketId", JStr "a")] in
  let tr := (two_in_r1 ++
               [mkInput (at_time 500) "c" Connection;
                mkInput (at_time 600) "c" (JoinRoom (join 6 mallory "r1"))])%list in
  let u := JObj 5 [("name", JStr "Mallory"); ("socketId", JStr "c")] in
  tbl_get "c" (presence (after tr) (KStr "r1")) = Some u ∧
  get_prop u "socketId" = JStr "c".
Proof.
  intros mallory tr u. split; [vm_compute; reflexivity|].
  apply (socketId_is_the_sockets tr (after tr) (KStr "r1") "c" u 5
           [("name", JStr "Mallory"); ("socketId", JStr "c")]).
  - apply reaches_after. vm_compute. eauto.
  - vm_compute; reflexivity.
  - reflexivity.
Defined.



(** ** What a handler leaves alone *)

Lemma lookup_initializeRoom_other clk roomId s k :
  key_of roomId ≠ k →
  rooms (initializeRoom clk roomId s) !! k = rooms s !! k ∧
  roomVideoStates (initializeRoom clk roomId s) !! k = roomVideoStates s !! k ∧
  roomUsers (initializeRoom clk roomId s) !! k = roomUsers s !! k.
Proof.
  intros Hne.
  rewrite initializeRoom_rooms, initializeRoom_roomVideoStates,
    initializeRoom_roomUsers, !lookup_ensure.
  repeat split; (destruct (_ !! k); [done|by case_decide]).
Qed.

Lemma lookup_removed_rooms sid k us s k' :
  rooms (removed sid k us s) !! k' =
    if decide (k = k') then
      match tbl_delete sid us with
      | [] => None
      | _ => rooms s !! k'
      end
    else rooms s !! k'.
Proof.
  unfold removed. destruct (tbl_delete sid us); simpl; case_decide; subst;
    by rewrite ?lookup_delete_eq, ?lookup_delete_ne.
Qed.

Lemma lookup_removed_roomVideoStates sid k us s k' :
  roomVideoStates (removed sid k us s) !! k' =
    if decide (k = k') then
      match tbl_delete sid us with
      | [] => None
      | _ => roomVideoStates s !! k'
      end
    else roomVideoStates s !! k'.
Proof.
  unfold removed. destruct (tbl_delete sid us); simpl; case_decide; subst;
    by rewrite ?lookup_delete_eq, ?lookup_delete_ne.
Qed.

(** A handler changes the room record, the video state and the user map of
    at most one room: those of every other room are as they were. *)
Theorem other_rooms_untouched clk sid e s s' out k :
  handle clk sid e s = Done s' out → k ≠ touched sid e s →
  rooms s' !! k = rooms s !! k ∧
  roomVideoStates s' !! k = roomVideoStates s !! k ∧
  roomUsers s' !! k = roomUsers s !! k.
Proof.
  intros H Hk. apply handle_effect in H.
  effect_cases H; simpl in Hk; try done.
  - subst s1 roomId. simpl. rewrite lookup_insert_ne by done.
    apply lookup_initializeRoom_other. by intros <-.
  - simpl. rewrite lookup_insert_ne by done.
    apply lookup_initializeRoom_other. by intros <-.
  - simpl. by rewrite lookup_insert_ne.
  - simpl. rewrite lookup_removed_rooms, lookup_removed_roomVideoStates,
      lookup_removed. by rewrite !decide_False by done.
  - rewrite Hdata in Hk. simpl in Hk.
    rewrite lookup_removed_rooms, lookup_removed_roomVideoStates, lookup_removed.
    by rewrite !decide_False by done.
Qed.

(** An instance: "a" and "b" are in "r1", "c" is alone in "r2" and leaves. *)
Lemma other_rooms_untouched_witness :
  let s := after (two_in_r1 ++
             [mkInput (at_time 500) "c" Connection;
              mkInput (at_time 600) "c" (JoinRoom (join 5 alice "r2"))]) in
  let d := JObj 6 [("roomId", JStr "r2"); ("userId", JStr "u1")] in
  let s' := after (two_in_r1 ++
              [mkInput (at_time 500) "c" Connection;
               mkInput (at_time 600) "c" (JoinRoom (join 5 alice "r2"));
               mkInput (at_time 700) "c" (LeaveRoom d)]) in
  rooms s' !! KStr "r1" = rooms s !! KStr "r1" ∧
  roomVideoStates s' !! KStr "r1" = roomVideoStates s !! KStr "r1" ∧
  roomUsers s' !! KStr "r1" = roomUsers s !! KStr "r1".
Proof.
  intros s d s'.
  eapply (other_rooms_untouched (at_time 700) "c" (LeaveRoom d) s s').
  - vm_compute; reflexivity.
  - discriminate.
Defined.

(** A handler changes nothing on any socket other than the one whose event
    it handles: neither what is recorded on it nor the rooms it is in. *)
Theorem other_sockets_untouched clk sid e s s' out x :
  handle clk sid e s = Done s' out → x ≠ sid →
  sockets s' !! x = sockets s !! x.
Proof.
  intros H Hx. apply handle_effect in H.
  effect_cases H; simpl; try done;
    rewrite ?removed_sockets; simpl;
    rewrite ?lookup_alter_ne, ?lookup_insert_ne, ?lookup_delete_ne by done;
    try done.
  - subst s1. by rewrite initializeRoom_sockets.
  - by rewrite initializeRoom_sockets.
Qed.

Lemma other_sockets_untouched_witness :
  let s := after two_in_r1 in
  let d := JObj 5 [("roomId", JStr "r1"); ("userId", JStr "u2")] in
  let s' := after (two_in_r1 ++ [mkInput (at_time 700) "b" (LeaveRoom d)]) in
  sockets s' !! "a" = sockets s !! "a".
Proof.
  intros s d s'.
  eapply (other_sockets_untouched (at_time 700) "b" (LeaveRoom d) s s').
  - vm_compute; reflexivity.
  - discriminate.
Defined.

(** The chat and signalling handlers keep no state: whatever the payload,
    a chat-message, offer, answer or ice-candidate leaves the server state
    as it was.  In particular they neither need nor create the room they
    name. *)
Theorem relays_keep_no_state clk sid e s s' out :
  handle clk sid e s = Done s' out →
  (∃ d, e = ChatMessage d ∨ e = Offer d ∨ e = Answer d ∨ e = IceCandidate d) →
  s' = s.
Proof.
  intros H (d & [-> | [-> | [-> | ->]]]); simpl in H;
    unfold on_chat_message, on_offer, on_answer, on_ice_candidate, on_signal in H;
    handler_cases H; by injection H as <- <-.
Qed.

(** An instance: a chat message to a room that does not exist. *)
Lemma relays_keep_no_state_witness :
  let s := after two_in_r1 in
  let d := JObj 5 [("roomId", JStr "nowhere"); ("user", alice); ("message", JStr "hi")] in
  ∃ m, handle (at_time 900) "a" (ChatMessage d) s = Done s [m] ∧ s = s.
Proof.
  intros s d. eexists. split; [reflexivity|].
  eapply (relays_keep_no_state (at_time 900) "a" (ChatMessage d) s s).
  - reflexivity.
  - exists d. by left.
Defined.

(** ** Invariants of the room records and video states *)

Lemma effect_roomVideoStates clk sid s e s' k v :
  effect clk sid s e s' → roomVideoStates s' !! k = Some v →
  roomVideoStates s !! k = Some v ∨ v = pristine ∨ is_Some (lastUpdated v).
Proof.
  intros Heff. effect_cases Heff; simpl; try (by left).
  - subst s1. rewrite initializeRoom_roomVideoStates, lookup_ensure.
    destruct (roomVideoStates s !! k); [by left|].
    case_decide; [|done]. intros [= <-]. by right; left.
  - destruct (decide (room_of data = k)) as [<-|Hne].
    + rewrite lookup_insert_eq. intros [= <-]. right; right. by eexists.
    + rewrite lookup_insert_ne by done.
      rewrite initializeRoom_roomVideoStates, lookup_ensure.
      destruct (roomVideoStates s !! k); [by left|].
      case_decide; [|done]. intros [= <-]. by right; left.
  - destruct (decide (room_of data = k)) as [<-|Hne].
    + rewrite lookup_insert_eq. intros [= <-]. right; right. by eexists.
    + rewrite lookup_insert_ne by done. by left.
  - rewrite lookup_removed_roomVideoStates. case_decide; [|by left].
    destruct (tbl_delete sid us); [done|by left].
  - rewrite lookup_removed_roomVideoStates. simpl. case_decide; [|by left].
    destruct (tbl_delete sid us); [done|by left].
Qed.

(** Every change of a video state is stamped: at every state the server
    can reach, a video state whose [lastUpdated] is [null] is the pristine
    one (no source, position 0, not playing, [lastUpdatedBy] [null]). *)
Theorem unstamped_is_pristine tr s k cs :
  reaches tr s → roomVideoStates s !! k = Some cs → lastUpdated cs = None →
  cs = pristine.
Proof.
  intros [out Hrun]. revert k cs.
  refine (run_invariant
            (λ s, ∀ k cs, roomVideoStates s !! k = Some cs → lastUpdated cs = None →
                          cs = pristine) _ tr initial s out Hrun _).
  - intros i s1 s2 out' Hstep IH k cs Hcs Hlu. apply step_effect in Hstep.
    destruct (effect_roomVideoStates _ _ _ _ _ k cs Hstep Hcs)
      as [Hold | [-> | [t Ht]]]; [by eapply IH|done|congruence].
  - intros k cs Hcs. unfold initial in Hcs. simpl in Hcs.
    by rewrite lookup_empty in Hcs.
Qed.

Lemma unstamped_is_pristine_witness :
  roomVideoStates (after two_in_r1) !! KStr "r1" = Some pristine ∧
  pristine = pristine.
Proof.
  split; [vm_compute; reflexivity|].
  apply (unstamped_is_pristine two_in_r1 (after two_in_r1) (KStr "r1") pristine).
  - apply reaches_after. vm_compute. eauto.
  - vm_compute; reflexivity.
  - reflexivity.
Defined.

Lemma effect_rooms clk sid s e s' k r :
  effect clk sid s e s' → rooms s' !! k = Some r →
  rooms s !! k = Some r ∨ (key_of (id r) = k ∧ users r = []).
Proof.
  intros Heff. effect_cases Heff; simpl; try (by left).
  - subst s1. rewrite initializeRoom_rooms, lookup_ensure.
    destruct (rooms s !! k); [by left|].
    case_decide; [|done]. intros [= <-]. by right.
  - rewrite initializeRoom_rooms, lookup_ensure.
    destruct (rooms s !! k); [by left|].
    case_decide; [|done]. intros [= <-]. by right.
  - rewrite lookup_removed_rooms. case_decide; [|by left].
    destruct (tbl_delete sid us); [done|by left].
  - rewrite lookup_removed_rooms. simpl. case_decide; [|by left].
    destruct (tbl_delete sid us); [done|by left].
Qed.

(** The [users] map inside a room record is never filled: at every state
    the server can reach, a room record is filed under its own [id] and its
    [users] is empty, however many sockets are in the room (membership
    lives in [roomUsers] only). *)
Theorem room_record_users_stay_empty tr s k r :
  reaches tr s → rooms s !! k = Some r →
  key_of (id r) = k ∧ users r = [].
Proof.
  intros [out Hrun]. revert k r.
  refine (run_invariant
            (λ s, ∀ k r, rooms s !! k = Some r → key_of (id r) = k ∧ users r = [])
            _ tr initial s out Hrun _).
  - intros i s1 s2 out' Hstep IH k r Hr. apply step_effect in Hstep.
    destruct (effect_rooms _ _ _ _ _ k r Hstep Hr) as [Hold | Hnew];
      [by eapply IH|done].
  - intros k r Hr. unfold initial in Hr. simpl in Hr.
    by rewrite lookup_empty in Hr.
Qed.

Lemma room_record_users_stay_empty_witness :
  let r := mkRoom (JStr "r1") 300 [] in
  rooms (after two_in_r1) !! KStr "r1" = Some r ∧
  length (presence (after two_in_r1) (KStr "r1")) = 2%nat ∧
  key_of (id r) = KStr "r1" ∧ users r = [].
Proof.
  intros r. split; [vm_compute; reflexivity|]. split; [vm_compute; reflexivity|].
  apply (room_record_users_stay_empty two_in_r1 (after two_in_r1) (KStr "r1") r).
  - apply reaches_after. vm_compute. eauto.
  - vm_compute; reflexivity.
Defined.

(** ** Leaving *)

Lemma remove_user_eq sid roomId userName us s :
  remove_user sid roomId userName us s =
    (removed sid (key_of roomId) us s, [user_left s sid roomId userName us]).
Proof.
  rewrite (surjective_pairing (remove_user sid roomId userName us s)).
  by rewrite remove_user_state, remove_user_out.
Qed.

Lemma on_leave_room_known sid data s us :
  valid_leave data → roomUsers s !! room_of data = Some us →
  on_leave_room sid data s =
    if emptied sid us && negb (stringifiable (get_prop data "roomId"))
    then Throw (removed sid (room_of data) us s)
           [user_left s sid (get_prop data "roomId") (leaving_name sid us) us]
    else log_then_return (leave_logged data)
           (socket_leave sid (get_prop data "roomId") (removed sid (room_of data) us s))
           [user_left s sid (get_prop data "roomId") (leaving_name sid us) us].
Proof.
  intros [Hroom Huser] Hus. unfold on_leave_room.
  rewrite (truthy_destructurable _ _ Hroom), Hroom, Huser. simpl.
  unfold room_of in Hus. rewrite Hus. by rewrite remove_user_eq.
Qed.

(** However a leave-room for a room with a user map ends, it has sent the
    notice and left the three maps as [removed] gives them. *)
Lemma on_leave_room_ends_in sid data s us :
  valid_leave data → roomUsers s !! room_of data = Some us →
  ∃ s',
    ends_in (on_leave_room sid data s) s'
      [user_left s sid (get_prop data "roomId") (leaving_name sid us) us] ∧
    rooms s' = rooms (removed sid (room_of data) us s) ∧
    roomVideoStates s' = roomVideoStates (removed sid (room_of data) us s) ∧
    roomUsers s' = roomUsers (removed sid (room_of data) us s).
Proof.
  intros Hv Hus. rewrite (on_leave_room_known _ _ _ us) by done.
  destruct (emptied sid us && negb (stringifiable (get_prop data "roomId"))).
  - eexists. split; [by right|done].
  - eexists. split; [apply log_then_return_ends_in|done].
Qed.


Lemma on_disconnect_known sid s roomId user us :
  socket_data s sid = (roomId, user) →
  truthy roomId = true → truthy user = true →
  roomUsers s !! key_of roomId = Some us →
  on_disconnect sid s =
    (if emptied sid us && negb (stringifiable roomId) then Throw else Done)
      (removed sid (key_of roomId) us (set_sockets (delete sid) s))
      [user_left (set_sockets (delete sid) s) sid roomId (get_prop user "name") us].
Proof.
  intros Hdata Hroom Huser Hus. unfold on_disconnect.
  rewrite Hdata, Hroom, Huser. simpl. rewrite Hus. rewrite remove_user_eq.
  by destruct (emptied sid us && negb (stringifiable roomId)).
Qed.

Lemma on_disconnect_ends_in sid s roomId user us :
  socket_data s sid = (roomId, user) →
  truthy roomId = true → truthy user = true →
  roomUsers s !! key_of roomId = Some us →
  ends_in (on_disconnect sid s)
    (removed sid (key_of roomId) us (set_sockets (delete sid) s))
    [user_left (set_sockets (delete sid) s) sid roomId (get_prop user "name") us].
Proof.
  intros Hdata Hroom Huser Hus.
  rewrite (on_disconnect_known _ _ _ _ _ Hdata Hroom Huser Hus).
  destruct (emptied sid us && negb (stringifiable roomId)); [by right|by left].
Qed.

(** A leave-room that passes the field check, for a room that has a user
    map: the sockets in the room, those in the room named by the leaver's id
    apart, are told once, with the list without the leaver (the leaver is
    not told as long as it is in the room named by its id); the leaver's
    entry is gone; and when that leaves the map empty, room record, video
    state and user map are deleted together, else the room record and the
    video state are as they were.  All of this is done before the handler's
    log lines, so it holds whether the handler returns or a log line
    raises. *)
Theorem leave_room_removes_and_cleans sid data s us :
  valid_leave data → roomUsers s !! room_of data = Some us →
  ∃ s' m,
    ends_in (on_leave_room sid data s) s' [m] ∧
    event m = "user-left" ∧
    (∀ x, x ∈ recipients m ↔
          room_member s (get_prop data "roomId") x ∧ ¬ in_room s x (KStr sid)) ∧
    (in_room s sid (KStr sid) → sid ∉ recipients m) ∧
    users_of m = arr (tbl_values (tbl_delete sid us)) ∧
    presence s' (room_of data) = tbl_delete sid us ∧
    match tbl_delete sid us with
    | [] =>
        rooms s' !! room_of data = None ∧
        roomVideoStates s' !! room_of data = None ∧
        roomUsers s' !! room_of data = None
    | us' =>
        rooms s' !! room_of data = rooms s !! room_of data ∧
        roomVideoStates s' !! room_of data = roomVideoStates s !! room_of data ∧
        roomUsers s' !! room_of data = Some us'
    end.
Proof.
  intros Hv Hus.
  destruct (on_leave_room_ends_in sid data s us Hv Hus) as (s' & Hend & Hr & Hvs & Hu).
  eexists s', _. split; [exact Hend|]. split; [done|].
  split; [intros x; apply elem_of_socket_to_member|].
  split; [intros Hown%elem_of_members; by apply sender_not_in_socket_to|].
  split; [done|]. split.
  { unfold presence. rewrite Hu. apply presence_removed. }
  rewrite Hr, Hvs, Hu.
  rewrite lookup_removed_rooms, lookup_removed_roomVideoStates, lookup_removed.
  rewrite !decide_True by done. by destruct (tbl_delete sid us).
Qed.

(** An instance: "b" leaves room "r1" and "a" stays. *)
Lemma leave_room_removes_and_cleans_witness :
  let s := after two_in_r1 in
  let d := JObj 5 [("roomId", JStr "r1"); ("userId", JStr "u2")] in
  let us := presence s (KStr "r1") in
  ∃ s' m,
    ends_in (on_leave_room "b" d s) s' [m] ∧
    event m = "user-left" ∧
    (∀ x, x ∈ recipients m ↔
          room_member s (get_prop d "roomId") x ∧ ¬ in_room s x (KStr "b")) ∧
    (in_room s "b" (KStr "b") → "b" ∉ recipients m) ∧
    users_of m = arr (tbl_values (tbl_delete "b" us)) ∧
    presence s' (room_of d) = tbl_delete "b" us ∧
    match tbl_delete "b" us with
    | [] =>
        rooms s' !! room_of d = None ∧
        roomVideoStates s' !! room_of d = None ∧
        roomUsers s' !! room_of d = None
    | us' =>
        rooms s' !! room_of d = rooms s !! room_of d ∧
        roomVideoStates s' !! room_of d = roomVideoStates s !! room_of d ∧
        roomUsers s' !! room_of d = Some us'
    end.
Proof.
  intros s d us. apply (leave_room_removes_and_cleans "b" d s us).
  - split; reflexivity.
  - vm_compute; reflexivity.
Defined.

(** A leave-room does not check that the socket is in the room.  From a
    socket that has no entry in the user map the room is still told that
    "Unknown" left, with the unchanged list; and when the map had no entry
    at all (a room made by a video-load), the room is deleted.  This holds
    whether the handler returns or one of its log lines raises. *)
Theorem leave_room_from_a_stranger sid data s us :
  valid_leave data → roomUsers s !! room_of data = Some us →
  tbl_get sid us = None →
  ∃ s' m,
    ends_in (on_leave_room sid data s) s' [m] ∧
    event m = "user-left" ∧
    get_prop (payload m) "userName" = JStr "Unknown" ∧
    users_of m = arr (tbl_values us) ∧
    match us with
    | [] =>
        rooms s' !! room_of data = None ∧
        roomVideoStates s' !! room_of data = None ∧
        roomUsers s' !! room_of data = None
    | _ =>
        rooms s' = rooms s ∧ roomVideoStates s' = roomVideoStates s ∧
        roomUsers s' = roomUsers s
    end.
Proof.
  intros Hv Hus Hnot.
  destruct (on_leave_room_ends_in sid data s us Hv Hus) as (s' & Hend & Hr & Hvs & Hu).
  eexists s', _. split; [exact Hend|].
  split; [done|]. split.
  { simpl. unfold leaving_name. by rewrite Hnot. }
  split.
  { unfold users_of. simpl. by rewrite tbl_delete_absent. }
  rewrite Hr, Hvs, Hu. unfold removed. rewrite tbl_delete_absent by done.
  destruct us as [|p us]; simpl.
  - by rewrite !lookup_delete_eq.
  - by rewrite insert_id.
Qed.

(** An instance: "c" never joined "r1" and sends a leave-room for it. *)
Lemma leave_room_from_a_stranger_witness :
  let s := after (two_in_r1 ++ [mkInput (at_time 500) "c" Connection]) in
  let d := JObj 5 [("roomId", JStr "r1"); ("userId", JStr "u3")] in
  let us := presence s (KStr "r1") in
  ∃ s' m,
    ends_in (on_leave_room "c" d s) s' [m] ∧
    event m = "user-left" ∧
    get_prop (payload m) "userName" = JStr "Unknown" ∧
    users_of m = arr (tbl_values us) ∧
    rooms s' = rooms s ∧ roomVideoStates s' = roomVideoStates s ∧
    roomUsers s' = roomUsers s.
Proof.
  intros s d us. apply (leave_room_from_a_stranger "c" d s us).
  - split; reflexivity.
  - vm_compute; reflexivity.
  - vm_compute; reflexivity.
Defined.

(** A leave-room for a room that has no user map is not an error: nothing
    is emitted, and room records, video states and user maps are as they
    were, whether the handler returns or its log line raises. *)
Theorem leave_room_unknown_room_is_silent sid data s :
  valid_leave data → roomUsers s !! room_of data = None →
  ∃ s',
    ends_in (on_leave_room sid data s) s' [] ∧
    rooms s' = rooms s ∧ roomVideoStates s' = roomVideoStates s ∧
    roomUsers s' = roomUsers s.
Proof.
  intros [Hroom Huser] Hnone. unfold on_leave_room.
  rewrite (truthy_destructurable _ _ Hroom), Hroom, Huser. simpl.
  unfold room_of in Hnone. rewrite Hnone.
  eexists. split; [apply log_then_return_ends_in|done].
Qed.

Lemma leave_room_unknown_room_is_silent_witness :
  let s := after two_in_r1 in
  let d := JObj 5 [("roomId", JStr "r7"); ("userId", JStr "u1")] in
  ∃ s',
    ends_in (on_leave_room "a" d s) s' [] ∧
    rooms s' = rooms s ∧ roomVideoStates s' = roomVideoStates s ∧
    roomUsers s' = roomUsers s.
Proof.
  intros s d. apply (leave_room_unknown_room_is_silent "a" d s).
  - split; reflexivity.
  - vm_compute; reflexivity.
Defined.

(** ** Disconnecting *)

(** Whether a broadcast addresses a socket depends on that socket alone. *)
Lemma elem_of_io_to s room x :
  x ∈ io_to s room ↔
  ∃ sk, sockets s !! x = Some sk ∧
        (sio_names room = [] ∨ ∃ k, k ∈ sio_names room ∧ k ∈ sio_rooms sk).
Proof.
  unfold io_to, in_rooms. destruct (sio_names room) as [|k0 ks].
  - rewrite elem_of_dom. split.
    + intros [sk Hsk]. exists sk. eauto.
    + intros (sk & Hsk & _). eauto.
  - rewrite elem_of_union_list. split.
    + intros (X & HX & Hin). apply list_elem_of_fmap in HX as (k & -> & Hk).
      apply elem_of_members in Hin as (sk & Hsk & Hksk). exists sk. eauto.
    + intros (sk & Hsk & [? | (k & Hk & Hksk)]); [done|].
      exists (members s k). split; [apply list_elem_of_fmap; eauto|].
      apply elem_of_members. eauto.
Qed.

Lemma io_to_same_socket s s' room x :
  sockets s' !! x = sockets s !! x → x ∈ io_to s' room ↔ x ∈ io_to s room.
Proof. intros Hx. rewrite !elem_of_io_to. by rewrite Hx. Qed.

Lemma members_same_socket s s' k x :
  sockets s' !! x = sockets s !! x → x ∈ members s' k ↔ x ∈ members s k.
Proof. intros Hx. rewrite !elem_of_members. by rewrite Hx. Qed.

Lemma socket_to_same_socket s s' sid room x :
  sockets s' !! x = sockets s !! x →
  x ∈ socket_to s' sid room ↔ x ∈ socket_to s sid room.
Proof.
  intros Hx. rewrite !elem_of_socket_to.
  by rewrite (io_to_same_socket s s' room x Hx), (members_same_socket s s' _ x Hx).
Qed.

(** Once the sender is gone, [socket.to] addresses whom it addressed before,
    the sender apart. *)
Lemma socket_to_delete_socket s sid room :
  socket_to (set_sockets (delete sid) s) sid room = socket_to s sid room ∖ {[sid]}.
Proof.
  apply set_eq. intros x. rewrite elem_of_difference, elem_of_singleton.
  destruct (decide (x = sid)) as [->|Hx].
  - split; [|tauto]. intros [Hin _]%elem_of_socket_to.
    apply elem_of_io_to in Hin as (sk & Hsk & _). simpl in Hsk.
    by rewrite lookup_delete_eq in Hsk.
  - rewrite (socket_to_same_socket s (set_sockets (delete sid) s) sid room x);
      [tauto|]. simpl. by rewrite lookup_delete_ne.
Qed.


(** Disconnect and leave-room converge: for a socket that is still in the
    room named by its id and is listed in the room recorded on it, under
    the user recorded on it, with a name, the disconnect emits the very
    message a leave-room for that room would emit, to the same sockets, and
    leaves the same room records, video states and user maps; and this
    whether the handlers return or one of their log lines raises. *)
Theorem disconnect_like_leave sid data s roomId user us :
  in_room s sid (KStr sid) →
  socket_data s sid = (roomId, user) →
  truthy roomId = true → truthy user = true →
  roomUsers s !! key_of roomId = Some us →
  tbl_get sid us = Some user → truthy (get_prop user "name") = true →
  get_prop data "roomId" = roomId → truthy (get_prop data "userId") = true →
  ∃ s1 s2 out,
    ends_in (on_leave_room sid data s) s1 out ∧
    ends_in (on_disconnect sid s) s2 out ∧
    rooms s1 = rooms s2 ∧ roomVideoStates s1 = roomVideoStates s2 ∧
    roomUsers s1 = roomUsers s2.
Proof.
  intros Hown Hdata Hroom Huser Hus Hentry Hname Hd Huid.
  assert (valid_leave data) as Hv by (split; by rewrite ?Hd).
  assert (roomUsers s !! room_of data = Some us) as Hus'.
  { unfold room_of. by rewrite Hd. }
  destruct (on_leave_room_ends_in sid data s us Hv Hus')
    as (s1 & Hend & Hr & Hvs & Hu).
  assert (socket_to s sid roomId ∖ {[sid]} = socket_to s sid roomId) as Hset.
  { apply set_eq. intros x. rewrite elem_of_difference, elem_of_singleton.
    split; [tauto|]. intros Hx. split; [done|]. intros ->.
    by apply (sender_not_in_socket_to s sid roomId); [apply elem_of_members|]. }
  assert (leaving_name sid us = get_prop user "name") as Hn.
  { unfold leaving_name, js_or. by rewrite Hentry, Hname. }
  exists s1, (removed sid (key_of roomId) us (set_sockets (delete sid) s)),
    [user_left s sid (get_prop data "roomId") (leaving_name sid us) us].
  split; [exact Hend|]. split.
  { replace (user_left s sid (get_prop data "roomId") (leaving_name sid us) us)
      with (user_left (set_sockets (delete sid) s) sid roomId (get_prop user "name") us).
    - by apply on_disconnect_ends_in.
    - unfold user_left. by rewrite socket_to_delete_socket, Hset, Hd, Hn. }
  rewrite Hr, Hvs, Hu. unfold room_of. rewrite Hd. unfold removed.
  by destruct (tbl_delete sid us).
Qed.

(** An instance: "b", in room "r1". *)
Lemma disconnect_like_leave_witness :
  let s := after two_in_r1 in
  let d := JObj 5 [("roomId", JStr "r1"); ("userId", JStr "u2")] in
  ∃ s1 s2 out,
    ends_in (on_leave_room "b" d s) s1 out ∧
    ends_in (on_disconnect "b" s) s2 out ∧
    rooms s1 = rooms s2 ∧ roomVideoStates s1 = roomVideoStates s2 ∧
    roomUsers s1 = roomUsers s2.
Proof.
  intros s d.
  apply (disconnect_like_leave "b" d s (JStr "r1")
           (JObj 2 [("name", JStr "Bob"); ("id", JStr "u2"); ("socketId", JStr "b")])
           (presence s (KStr "r1")));
    try (vm_compute; reflexivity).
  eexists. split; [vm_compute; reflexivity|].
  refine (bool_decide_unpack _ _). vm_compute. exact I.
Defined.





(** ** Coming and going *)








(** ** Loading *)

(** A video-load that passes the field check never changes who is in which
    room or any socket, whoever sends it (the sender need not be in the
    room): it makes sure the room exists and replaces its video state, and
    has done so whether it returns or its final log line raises. *)
Theorem video_load_keeps_members clk sid data s :
  valid_video_load data →
  ∃ s' m,
    ends_in (on_video_load clk sid data s) s' [m] ∧
    event m = "video-load" ∧
    (∀ k, presence s' k = presence s k) ∧
    sockets s' = sockets s ∧
    is_Some (rooms s' !! room_of data) ∧
    is_Some (roomUsers s' !! room_of data) ∧
    roomVideoStates s' !! room_of data = Some (loaded clk data).
Proof.
  intros Hv. eexists _, _. split; [by apply on_video_load_ends_in|].
  split; [done|].
  split; [intros k; apply presence_initializeRoom|].
  split; [apply initializeRoom_sockets|]. simpl.
  split.
  { rewrite initializeRoom_rooms, lookup_ensure. unfold room_of.
    destruct (_ !! _); [eauto|]. rewrite decide_True by done. eauto. }
  split.
  { unfold room_of. rewrite roomUsers_initializeRoom_here. eauto. }
  apply lookup_insert_eq.
Qed.

(** An instance: "c", who joined nothing, loads a video into "r1". *)
Lemma video_load_keeps_members_witness :
  let s := after (two_in_r1 ++ [mkInput (at_time 500) "c" Connection]) in
  let d := load 5 "r1" "upload" "movie" "u3" in
  ∃ s' m,
    ends_in (on_video_load (at_time 600) "c" d s) s' [m] ∧
    event m = "video-load" ∧
    (∀ k, presence s' k = presence s k) ∧
    sockets s' = sockets s ∧
    is_Some (rooms s' !! room_of d) ∧
    is_Some (roomUsers s' !! room_of d) ∧
    roomVideoStates s' !! room_of d = Some (loaded (at_time 600) d).
Proof.
  intros s d. apply (video_load_keeps_members (at_time 600) "c" d s).
  repeat split; reflexivity.
Defined.

(** ** [initializeRoom] once more *)

(** [initializeRoom] is idempotent, whenever it is called again: a second
    call changes nothing, so a room that exists keeps its record (and its
    creation time), its video state and its users. *)
Theorem initializeRoom_idempotent clk clk' roomId s :
  initializeRoom clk' roomId (initializeRoom clk roomId s)
    = initializeRoom clk roomId s.
Proof.
  set (s1 := initializeRoom clk roomId s).
  assert (has (rooms s1) (key_of roomId) = true) as Hr.
  { apply has_true. subst s1. rewrite initializeRoom_rooms, lookup_ensure.
    destruct (_ !! _); [eauto|]. rewrite decide_True by done. eauto. }
  assert (has (roomVideoStates s1) (key_of roomId) = true) as Hv.
  { apply has_true, initializeRoom_videoState_is_Some. }
  assert (has (roomUsers s1) (key_of roomId) = true) as Hu.
  { apply has_true. subst s1. rewrite roomUsers_initializeRoom_here. eauto. }
  unfold initializeRoom at 1. by rewrite Hr, Hv, Hu.
Qed.

(** When the three structures of a room exist, [initializeRoom] changes
    nothing at all. *)
Theorem initializeRoom_existing_room clk roomId s :
  is_Some (rooms s !! key_of roomId) →
  is_Some (roomVideoStates s !! key_of roomId) →
  is_Some (roomUsers s !! key_of roomId) →
  initializeRoom clk roomId s = s.
Proof.
  intros Hr%has_true Hv%has_true Hu%has_true.
  unfold initializeRoom. by rewrite Hr, Hv, Hu.
Qed.

Lemma initializeRoom_existing_room_witness :
  initializeRoom (at_time 900) (JStr "r1") (after two_in_r1) = after two_in_r1.
Proof.
  apply (initializeRoom_existing_room (at_time 900) (JStr "r1") (after two_in_r1));
    vm_compute; eauto.
Defined.

(** ** The room named by a socket's id *)

Lemma effect_only_owner clk sid s e s' o :
  effect clk sid s e s' → names_room (KStr o) e = false →
  only_owner s o → only_owner s' o.
Proof.
  intros Heff Hn HP y sk' Hsk'.
  effect_cases Heff; simpl in Hsk', Hn;
    rewrite ?removed_sockets, ?initializeRoom_sockets in Hsk'; simpl in Hsk';
    try (by apply HP).
  - (* connection *)
    destruct (decide (sid = y)) as [->|Hne].
    + rewrite lookup_insert_eq in Hsk'. injection Hsk' as <-. simpl.
      rewrite elem_of_singleton. split; [by intros [= ->]|by intros ->].
    + rewrite lookup_insert_ne in Hsk' by done. by apply HP.
  - (* join-room *)
    subst s1. rewrite initializeRoom_sockets in Hsk'.
    apply bool_decide_eq_false in Hn.
    destruct (decide (sid = y)) as [->|Hne].
    + rewrite !lookup_alter_eq in Hsk'.
      destruct (sockets s !! y) as [sk|] eqn:Hsk; [|done].
      injection Hsk' as <-. simpl.
      rewrite elem_of_union, elem_of_list_to_set.
      specialize (HP y sk Hsk). tauto.
    + rewrite !lookup_alter_ne in Hsk' by done. by apply HP.
  - (* leave-room *)
    apply bool_decide_eq_false in Hn.
    destruct (decide (sid = y)) as [->|Hne].
    + rewrite lookup_alter_eq in Hsk'.
      destruct (sockets s !! y) as [sk|] eqn:Hsk; [|done].
      injection Hsk' as <-. simpl.
      rewrite elem_of_difference, elem_of_singleton.
      specialize (HP y sk Hsk). split; [tauto|].
      intros Hy. split; [tauto|]. congruence.
    + rewrite lookup_alter_ne in Hsk' by done. by apply HP.
  - (* leave-room for a room without a user map *)
    apply bool_decide_eq_false in Hn.
    destruct (decide (sid = y)) as [->|Hne].
    + rewrite lookup_alter_eq in Hsk'.
      destruct (sockets s !! y) as [sk|] eqn:Hsk; [|done].
      injection Hsk' as <-. simpl.
      rewrite elem_of_difference, elem_of_singleton.
      specialize (HP y sk Hsk). split; [tauto|].
      intros Hy. split; [tauto|]. congruence.
    + rewrite lookup_alter_ne in Hsk' by done. by apply HP.
  - (* disconnect *)
    apply lookup_delete_Some in Hsk' as [_ Hsk]. by apply HP.
  - apply lookup_delete_Some in Hsk' as [_ Hsk]. by apply HP.
Qed.

Lemma run_only_owner tr s0 s out o :
  run tr s0 = Some (s, out) → left_alone (KStr o) tr = true →
  only_owner s0 o → only_owner s o.
Proof.
  revert s0 out. induction tr as [|i tr IH]; simpl; intros s0 out Hrun Hal HP.
  - by injection Hrun as <- _.
  - destruct (step i s0) as [s1 out1|] eqn:E; [|done].
    destruct (run tr s1) as [[s2 out2]|] eqn:E'; [|done].
    injection Hrun as <- _. apply andb_prop in Hal as [Hi Hal].
    apply negb_true_iff in Hi. apply step_effect in E.
    eapply IH; [done..|]. by eapply effect_only_owner.
Qed.

Lemma reaches_only_owner tr s o :
  reaches tr s → left_alone (KStr o) tr = true → only_owner s o.
Proof.
  intros [out Hrun] Hal.
  apply (run_only_owner tr initial s out o Hrun Hal).
  intros y sk. unfold initial. simpl. by rewrite lookup_empty.
Qed.

Lemma only_owner_intact s sid :
  only_owner s sid → is_Some (sockets s !! sid) → own_room_intact s sid.
Proof.
  intros HP [sk Hsk] y. unfold in_room. split.
  - intros (sk' & Hsk' & Hin). by apply (HP y sk').
  - intros ->. exists sk. split; [done|]. by apply (HP sid sk).
Qed.

(** socket.io puts every socket into a room named by its id, and the
    handlers let a client name any room.  At every state the server can
    reach by a run in which no join-room and no leave-room names the id of a
    connected socket as its room, the room of that name holds that socket
    and no other. *)
Theorem own_room_stays_intact tr s sid :
  reaches tr s → left_alone (KStr sid) tr = true →
  is_Some (sockets s !! sid) →
  own_room_intact s sid.
Proof.
  intros Hreach Hal Hsk.
  by apply only_owner_intact; [apply (reaches_only_owner tr)|].
Qed.

(** An instance: socket "b" in the running example. *)
Lemma own_room_stays_intact_witness :
  own_room_intact (after two_in_r1) "b".
Proof.
  apply (own_room_stays_intact two_in_r1 (after two_in_r1) "b").
  - apply reaches_after. vm_compute. eauto.
  - vm_compute; reflexivity.
  - vm_compute; eauto.
Defined.

(** In such a run an accepted video-action, an offer, an answer and an
    ice-candidate of a connected socket are delivered to exactly the
    sockets in the room other than the sender: everybody else in the room
    gets the event and the sender gets no echo, whether the handler returns
    or its log line raises. *)
Theorem others_hear_the_sender tr s clk sid ev :
  reaches tr s → left_alone (KStr sid) tr = true →
  is_Some (sockets s !! sid) →
  relayed clk ev s → audience_of ev = Some Others →
  ∃ s' out,
    ends_in (handle clk sid ev s) s' out ∧
    ∀ x, delivered out (event_name ev) x ↔
         room_member s (get_prop (event_data ev) "roomId") x ∧ x ≠ sid.
Proof.
  intros Hreach Hal Hsk Hrel Ha.
  assert (own_room_intact s sid) as Hown.
  { by apply only_owner_intact; [apply (reaches_only_owner tr)|]. }
  destruct ev; try discriminate Ha; simpl in Hrel |- *.
  - destruct Hrel as (Hv & cs & Hcs & Hdeb). eexists _, _.
    split; [by apply on_video_action_ends_in|].
    intros x. rewrite delivered_singleton by done.
    by apply elem_of_socket_to_intact.
  - eexists _, _. split; [left; by apply on_signal_Done|].
    intros x. rewrite delivered_singleton by done.
    by apply elem_of_socket_to_intact.
  - eexists _, _. split; [left; by apply on_signal_Done|].
    intros x. rewrite delivered_singleton by done.
    by apply elem_of_socket_to_intact.
  - eexists _, _. split; [left; by apply on_signal_Done|].
    intros x. rewrite delivered_singleton by done.
    by apply elem_of_socket_to_intact.
Qed.

(** An instance: a pause that "b" sends to room "r1". *)
Lemma others_hear_the_sender_witness :
  let s := after two_in_r1 in
  let d := action 5 "r1" "pause" (JInt 3) "u2" in
  ∃ s' out,
    ends_in (handle (at_time 1000) "b" (VideoAction d) s) s' out ∧
    ∀ x, delivered out "video-action" x ↔
         room_member s (get_prop d "roomId") x ∧ x ≠ "b".
Proof.
  intros s d.
  apply (others_hear_the_sender two_in_r1 s (at_time 1000) "b" (VideoAction d)).
  - apply reaches_after. vm_compute. eauto.
  - vm_compute; reflexivity.
  - vm_compute; eauto.
  - split; [split; reflexivity|]. eexists. split; vm_compute; reflexivity.
  - reflexivity.
Defined.
